(** * Gitstaller: version resolution and install/update/reinstall orchestration

    A shallow embedding of [gitstaller.py] and the properties its
    specification states about it.

    - Python strings are byte strings ([string]); the characters that matter
      to the program (digits, lower-case letters, ['.'], ['/'], tab, newline)
      are ASCII.
    - [self.metadata] and the contents of [installed.json] are [gmap]s from
      package names to records; the paths that exist on disk are a [gset].
    - The external collaborators (GitPython, [shutil], [subprocess]) are a
      record of outcome functions: what each call answers, or the exception
      it raises.  Within one method call every collaborator is asked at most
      once per argument, so answers need not depend on the moment of asking.
    - A method is a computation over an explicit world (package directory,
      file system, metadata, saved file, console, trace of collaborator
      calls) that ends with a value or a raised exception; [try_except]
      models the handlers of the source.
    - Writing [installed.json] and printing are taken to succeed.
    - The file system tracks the workspaces and the trees that a clone, a
      checkout or a pull leaves in them.  What a build command writes, and
      what a failed checkout or pull leaves behind, is not tracked.

    Line 136 of the source reads [.get('manual', False')]: the quote after
    [False] leaves the module unparsable as it stands.  The model reads the
    default as [False], as line 153 writes it. *)

From Stdlib Require Import NArith Ascii.
From stdpp Require Import gmap strings list fin_maps.

Local Open Scope N_scope.

(** ** Exceptions and results *)

(** The exception classes that the program names in an [except] clause, plus
    those that its own expressions or the collaborators can raise. *)
Inductive exn : Type :=
| GitCommandError
| PermissionError
| CalledProcessError
| IndexError
| TypeError
| AttributeError
| KeyError
| NoSuchPathError
| OtherError (cls : string).

Inductive result (A : Type) : Type :=
| Ok (a : A)
| Raise (e : exn).
Arguments Ok {A} a.
Arguments Raise {A} e.

#[global] Instance exn_eq_dec : EqDecision exn.
Proof. solve_decision. Defined.

Definition rbind {A B} (r : result A) (k : A -> result B) : result B :=
  match r with
  | Ok a => k a
  | Raise e => Raise e
  end.

(** ** Python string and list primitives *)

Module PyStr.

(** [s.split(sep)] for a one-character separator: never the empty list. *)
Fixpoint split (sep : ascii) (s : string) : list string :=
  match s with
  | EmptyString => [EmptyString]
  | String c s' =>
      if decide (c = sep) then EmptyString :: split sep s'
      else match split sep s' with
           | [] => [String c EmptyString]
           | h :: t => String c h :: t
           end
  end.

(** [xs[-1]] *)
Definition item_last {A} (xs : list A) : result A :=
  match last xs with
  | Some x => Ok x
  | None => Raise IndexError
  end.

(** [xs[i]] for a non-negative index *)
Definition item {A} (xs : list A) (i : nat) : result A :=
  match xs !! i with
  | Some x => Ok x
  | None => Raise IndexError
  end.

(** [s.startswith(p)] *)
Fixpoint startswith (p s : string) : bool :=
  match p, s with
  | EmptyString, _ => true
  | String a p', String b s' => if decide (a = b) then startswith p' s' else false
  | String _ _, EmptyString => false
  end.

(** [s.endswith(p)] *)
Definition endswith (p s : string) : bool :=
  startswith (String.rev p) (String.rev s).

(** [s.replace(old, '')] for a non-empty [old]: every non-overlapping
    occurrence, scanned left to right, is dropped.  [skip] counts the
    characters of a match that are still to be dropped. *)
Fixpoint remove_all_from (old : string) (skip : nat) (s : string) : string :=
  match s with
  | EmptyString => EmptyString
  | String c s' =>
      match skip with
      | S k => remove_all_from old k s'
      | O =>
          if startswith old s
          then remove_all_from old (String.length old - 1) s'
          else String c (remove_all_from old 0 s')
      end
  end.

Definition remove_all (old s : string) : string := remove_all_from old 0 s.

(** [sep.join(xs)] *)
Fixpoint join (sep : string) (xs : list string) : string :=
  match xs with
  | [] => EmptyString
  | [x] => x
  | x :: rest => x +:+ sep +:+ join sep rest
  end.

(** [a < b] on [str]: lexicographic on code points. *)
Definition lt (a b : string) : bool :=
  match Stdlib.Strings.String.compare a b with
  | Lt => true
  | _ => false
  end.

End PyStr.

(** ** [distutils.version.LooseVersion] *)

Module Version.

(** A parsed component: [int] or [str]. *)
Inductive component : Type :=
| VInt (n : N)
| VStr (s : string).

#[global] Instance component_eq_dec : EqDecision component.
Proof. solve_decision. Defined.

(** Character classes of [component_re = (\d+ | [a-z]+ | \.)], on ASCII
    text: the digits are [0] to [9]. *)
Inductive cls : Type := Digit | Lower | Dot | Other.

#[global] Instance cls_eq_dec : EqDecision cls.
Proof. solve_decision. Defined.

Definition classify (c : ascii) : cls :=
  let n := N_of_ascii c in
  if (48 <=? n) && (n <=? 57) then Digit
  else if (97 <=? n) && (n <=? 122) then Lower
  else if n =? 46 then Dot
  else Other.

(** [component_re.split(vstring)] without the empty pieces: the maximal runs
    of digits, of lower-case letters and of other characters, every dot a
    piece of its own. *)
Fixpoint pieces (s : string) : list (cls * string) :=
  match s with
  | EmptyString => []
  | String c s' =>
      let k := classify c in
      match k, pieces s' with
      | Dot, rest => (Dot, String c EmptyString) :: rest
      | _, (k', r) :: rest =>
          if decide (k = k') then (k, String c r) :: rest
          else (k, String c EmptyString) :: (k', r) :: rest
      | _, [] => [(k, String c EmptyString)]
      end
  end.

(** [int(obj)] on a run of decimal digits. *)
Fixpoint int_of_digits_from (acc : N) (s : string) : N :=
  match s with
  | EmptyString => acc
  | String c s' => int_of_digits_from (10 * acc + (N_of_ascii c - 48)) s'
  end.

Definition int_of_digits (s : string) : N := int_of_digits_from 0 s.

(** [try: components[i] = int(obj) except ValueError: pass] *)
Definition to_component (p : cls * string) : component :=
  match p with
  | (Digit, r) => VInt (int_of_digits r)
  | (_, r) => VStr r
  end.

Definition is_dot (p : cls * string) : bool :=
  match p with
  | (Dot, _) => true
  | _ => false
  end.

(** [LooseVersion.parse]: the pieces that are neither empty nor ["."]. *)
Definition parse (vstring : string) : list component :=
  map to_component (filter (fun p => negb (is_dot p)) (pieces vstring)).

(** A [LooseVersion] object: [__init__] parses only a truthy [vstring], so
    [LooseVersion('')] has no [version] attribute. *)
Record LooseVersion : Type := mkLooseVersion { version : option (list component) }.

Definition LooseVersion_init (vstring : string) : LooseVersion :=
  match vstring with
  | EmptyString => mkLooseVersion None
  | _ => mkLooseVersion (Some (parse vstring))
  end.

(** [x < y] and [x > y] on components: [int] with [int], [str] with [str];
    a mixed pair raises [TypeError]. *)
Definition component_lt (x y : component) : result bool :=
  match x, y with
  | VInt m, VInt n => Ok (m <? n)
  | VStr s, VStr t => Ok (PyStr.lt s t)
  | _, _ => Raise TypeError
  end.

Definition component_gt (x y : component) : result bool := component_lt y x.

(** List comparison: the first pair that differs under [==] decides, else
    the lengths do. *)
Fixpoint list_lt (a b : list component) : result bool :=
  match a, b with
  | [], [] => Ok false
  | [], _ :: _ => Ok true
  | _ :: _, [] => Ok false
  | x :: a', y :: b' =>
      if decide (x = y) then list_lt a' b' else component_lt x y
  end.

Fixpoint list_gt (a b : list component) : result bool :=
  match a, b with
  | [], [] => Ok false
  | [], _ :: _ => Ok false
  | _ :: _, [] => Ok true
  | x :: a', y :: b' =>
      if decide (x = y) then list_gt a' b' else component_gt x y
  end.

(** [LooseVersion._cmp]: 0, -1 or 1; reading [version] on an object that
    never parsed raises [AttributeError]; the fall-through returns [None],
    on which the caller's [c < 0] raises [TypeError]. *)
Definition _cmp (self other : LooseVersion) : result comparison :=
  match version self, version other with
  | Some v, Some w =>
      if decide (v = w) then Ok Eq
      else rbind (list_lt v w) (fun l =>
             if l then Ok Lt
             else rbind (list_gt v w) (fun g =>
                    if g then Ok Gt else Raise TypeError))
  | _, _ => Raise AttributeError
  end.

(** [Version.__lt__]: [c = self._cmp(other); return c < 0]. *)
Definition __lt__ (self other : LooseVersion) : result bool :=
  rbind (_cmp self other) (fun c =>
    Ok match c with Lt => true | _ => false end).

End Version.

#[global] Instance result_ret : MRet result := @Ok.
#[global] Instance result_bind : MBind result := fun A B k r => rbind r k.

(** ** [sorted(xs, key=..., reverse=True)] *)

(** Python computes every key first, then sorts stably with [<] on the keys
    only; with [reverse=True] elements with equal keys keep their input
    order.  An exception raised by a key or by a comparison propagates.  The
    order in which CPython compares pairs is internal to its merge sort; the
    model inserts from the right, which compares the same single pair on a
    two-element list and returns the same list whenever the comparisons it
    makes are defined. *)
Section Sorted.
Context {A K : Type}.
Variable key : A -> result K.
Variable lt : K -> K -> result bool.

Fixpoint decorate (xs : list A) : result (list (K * A)) :=
  match xs with
  | [] => Ok []
  | x :: rest =>
      k ← key x;
      d ← decorate rest;
      Ok ((k, x) :: d)
  end.

Fixpoint insert_desc (x : K * A) (ys : list (K * A)) : result (list (K * A)) :=
  match ys with
  | [] => Ok [x]
  | y :: rest =>
      b ← lt x.1 y.1;
      if b : bool then r ← insert_desc x rest; Ok (y :: r)
      else Ok (x :: ys)
  end.

Fixpoint sort_desc (xs : list (K * A)) : result (list (K * A)) :=
  match xs with
  | [] => Ok []
  | x :: rest => s ← sort_desc rest; insert_desc x s
  end.

Definition sorted_reverse (xs : list A) : result (list A) :=
  d ← decorate xs;
  s ← sort_desc d;
  Ok (s.*2).

End Sorted.

(** ** The world the orchestrator acts on *)

(** One entry of [installed.json].  [install] writes all three keys; the
    readers use [metadata['url']] but [.get('source', 'main')] and
    [.get('manual', False)], so the last two may be absent. *)
Record package_record : Type := mkRecord {
  rec_url : string;
  rec_source : option string;
  rec_manual : option bool;
}.

#[global] Instance package_record_eq_dec : EqDecision package_record.
Proof. solve_decision. Defined.

(** Calls made to the collaborators and to the metadata file, in program
    order. *)
Inductive event : Type :=
| EvExists (path : string)                               (* os.path.exists(path) *)
| EvRmtree (path : string)                               (* rmtree(path) *)
| EvLsRemote (url : string)                              (* Git().ls_remote(url, tags=True) *)
| EvClone (url path : string) (branch : option string)   (* Repo.clone_from(url, path[, branch]) *)
| EvOpenRepo (path : string)                             (* Repo(path) *)
| EvTags (path : string)                                 (* repo.tags *)
| EvCheckout (path ref : string)                         (* repo.git.checkout(ref) *)
| EvFetchTags (path : string)                            (* repo.git.fetch('--tags') *)
| EvPull (path : string)                                 (* repo.remotes.origin.pull() *)
| EvRun (argv : list string)                             (* subprocess.run(argv, check=True) *)
| EvSave.                                                (* json.dump to installed.json *)

#[global] Instance event_eq_dec : EqDecision event.
Proof. solve_decision. Defined.

(** Lines printed on the console. *)
Inductive message : Type :=
| MsgAlreadyInstalled (name : string)   (* Package {name} is already installed *)
| MsgInstalling (name : string)         (* Installing {name}... *)
| MsgInstalled (name : string)          (* {name} successfully installed *)
| MsgInstallError (e : exn)             (* Installation error: {e} *)
| MsgNoReleases                         (* No releases found, using main branch *)
| MsgBuildOk                            (* Build and system installation completed successfully *)
| MsgBuildFailed                        (* Build failed: {e} *)
| MsgNotFound (name : string)           (* Package {name} not found *)
| MsgUpdating (name : string)           (* Updating {name}... *)
| MsgUpdated (name : string)            (* {name} successfully updated *)
| MsgUpdateError (e : exn).             (* Update error: {e} *)

#[global] Instance message_eq_dec : EqDecision message.
Proof. solve_decision. Defined.

Record world : Type := mkWorld {
  package_dir : string;                          (* self.package_dir *)
  fs : gset string;                              (* paths that exist on disk *)
  metadata : gmap string package_record;         (* self.metadata *)
  metadata_file : gmap string package_record;    (* contents of installed.json *)
  console : list message;
  trace : list event;
}.

Definition with_fs (f : gset string) (w : world) : world :=
  mkWorld (package_dir w) f (metadata w) (metadata_file w) (console w) (trace w).
Definition with_metadata (m : gmap string package_record) (w : world) : world :=
  mkWorld (package_dir w) (fs w) m (metadata_file w) (console w) (trace w).
Definition with_metadata_file (m : gmap string package_record) (w : world) : world :=
  mkWorld (package_dir w) (fs w) (metadata w) m (console w) (trace w).
Definition with_console (c : list message) (w : world) : world :=
  mkWorld (package_dir w) (fs w) (metadata w) (metadata_file w) c (trace w).
Definition with_trace (t : list event) (w : world) : world :=
  mkWorld (package_dir w) (fs w) (metadata w) (metadata_file w) (console w) t.

(** What the external collaborators answer.  A successful clone, checkout or
    pull answers with the entries of the working tree it leaves behind;
    [clone_residue] tells whether a failed clone leaves the directory. *)
Record collaborators : Type := mkCollaborators {
  ls_remote : string -> result string;
  clone_from : string -> string -> option string -> result (list string);
  clone_residue : string -> bool;
  open_repo : string -> result unit;
  repo_tags : string -> list string;
  git_checkout : string -> string -> result (list string);
  git_fetch_tags : string -> result unit;
  origin_pull : string -> result (list string);
  rmtree : string -> result unit;
  subprocess_run : list string -> result unit;
}.

(** ** Computations: world passing with exceptions *)

Definition M (A : Type) : Type := world -> result A * world.

#[global] Instance M_ret : MRet M := fun A a w => (Ok a, w).
#[global] Instance M_bind : MBind M := fun A B k m w =>
  match m w with
  | (Ok a, w') => k a w'
  | (Raise e, w') => (Raise e, w')
  end.

Definition lift {A} (r : result A) : M A := fun w => (r, w).
Definition gets {A} (f : world -> A) : M A := fun w => (Ok (f w), w).
Definition modify (f : world -> world) : M unit := fun w => (Ok tt, f w).

(** [try: body except (classes) as e: handler] *)
Definition try_except {A} (body : M A) (caught : exn -> bool) (handler : exn -> M A) : M A :=
  fun w =>
    match body w with
    | (Raise e, w') => if caught e then handler e w' else (Raise e, w')
    | ok => ok
    end.

Definition emit (e : event) : M unit := modify (fun w => with_trace (trace w ++ [e]) w).
Definition print (m : message) : M unit := modify (fun w => with_console (console w ++ [m]) w).

(** [os.path.join(a, b)] (posixpath) *)
Definition os_path_join (a b : string) : string :=
  if PyStr.startswith "/" b then b
  else if bool_decide (a = "") || PyStr.endswith "/" a then a +:+ b
  else a +:+ "/" +:+ b.

(** [p] is [path] or lies below it. *)
Definition under (path p : string) : bool :=
  bool_decide (p = path) || PyStr.startswith (path +:+ "/") p.

Definition remove_tree (path : string) (f : gset string) : gset string :=
  filter (fun p => under path p = false) f.

Definition put_tree (path : string) (tree : list string) (f : gset string) : gset string :=
  {[ path ]} ∪ list_to_set (os_path_join path <$> tree) ∪ remove_tree path f.

Definition os_path_exists (p : string) : M bool :=
  emit (EvExists p);; gets (fun w => bool_decide (p ∈ fs w)).

(** ** Collaborator calls *)

Section Calls.
Variable c : collaborators.

(** [shutil.rmtree(path)] *)
Definition shutil_rmtree (path : string) : M unit :=
  emit (EvRmtree path);;
  lift (rmtree c path);;
  modify (fun w => with_fs (remove_tree path (fs w)) w).

(** [Git().ls_remote(url, tags=True)] *)
Definition Git_ls_remote (url : string) : M string :=
  emit (EvLsRemote url);; lift (ls_remote c url).

(** [Repo.clone_from(url, path[, branch=b])]; the handle it returns is the
    path of the working tree. *)
Definition Repo_clone_from (url path : string) (branch : option string) : M string :=
  emit (EvClone url path branch);;
  match clone_from c url path branch with
  | Ok tree => modify (fun w => with_fs (put_tree path tree (fs w)) w);; mret path
  | Raise e =>
      (if clone_residue c path
       then modify (fun w => with_fs ({[ path ]} ∪ fs w) w)
       else mret tt);;
      lift (Raise e)
  end.

(** [Repo(path)] *)
Definition Repo_open (path : string) : M string :=
  emit (EvOpenRepo path);;
  present ← gets (fun w => bool_decide (path ∈ fs w));
  if present : bool then lift (open_repo c path);; mret path
  else lift (Raise NoSuchPathError).

(** [repo.tags], by name *)
Definition Repo_tags (repo : string) : M (list string) :=
  emit (EvTags repo);; mret (repo_tags c repo).

(** [repo.git.checkout(ref)] *)
Definition Repo_checkout (repo ref : string) : M unit :=
  emit (EvCheckout repo ref);;
  tree ← lift (git_checkout c repo ref);
  modify (fun w => with_fs (put_tree repo tree (fs w)) w).

(** [repo.git.fetch('--tags')] *)
Definition Repo_fetch_tags (repo : string) : M unit :=
  emit (EvFetchTags repo);; lift (git_fetch_tags c repo).

(** [repo.remotes.origin.pull()] *)
Definition Repo_pull (repo : string) : M unit :=
  emit (EvPull repo);;
  tree ← lift (origin_pull c repo);
  modify (fun w => with_fs (put_tree repo tree (fs w)) w).

(** [subprocess.run(argv, check=True)] *)
Definition subprocess_run_checked (argv : list string) : M unit :=
  emit (EvRun argv);; lift (subprocess_run c argv).

End Calls.

(** ** The [Gitstaller] methods *)

Definition newline : ascii := "010"%char.
Definition tab : ascii := "009"%char.
Definition slash : ascii := "/"%char.

(** [key=lambda t: LooseVersion(t.split('/')[-1])] *)
Definition remote_key (t : string) : result Version.LooseVersion :=
  seg ← PyStr.item_last (PyStr.split slash t);
  Ok (Version.LooseVersion_init seg).

(** Lines 37-40 of [_get_latest_tag], on the text that [ls_remote] answered. *)
Definition latest_tag_of (listing : string) : result (option string) :=
  tags ← sorted_reverse remote_key Version.__lt__ (PyStr.split newline listing);
  match tags with
  | [] => Ok None
  | t0 :: _ =>
      ref ← PyStr.item (PyStr.split tab t0) 1;
      name ← PyStr.item_last (PyStr.split slash ref);
      Ok (Some name)
  end.

(** [if latest_tag:] -- [None] and [''] are falsy; a truthy value is the
    tag to use. *)
Definition truthy (latest_tag : option string) : option string :=
  match latest_tag with
  | None => None
  | Some EmptyString => None
  | Some t => Some t
  end.

Section Gitstaller.
Variable c : collaborators.

Definition _save_metadata : M unit :=
  emit EvSave;;
  modify (fun w => with_metadata_file (metadata w) w).

Definition _get_latest_tag (repo_url : string) : M (option string) :=
  listing ← Git_ls_remote c repo_url;
  lift (latest_tag_of listing).

Definition _checkout_version (repo : string) (source_spec : string) : M unit :=
  if decide (source_spec = "main") then Repo_checkout c repo "main"
  else if decide (source_spec = "latest-release") then
    names ← Repo_tags c repo;
    tags ← lift (sorted_reverse (fun t => Ok (Version.LooseVersion_init t))
                                Version.__lt__ names);
    match tags with
    | t0 :: _ => Repo_checkout c repo t0
    | [] => print MsgNoReleases
    end
  else Repo_checkout c repo source_spec.

Definition make_argv (install_path : string) : list string :=
  ["make"; "-C"; install_path].
Definition make_install_argv (install_path : string) : list string :=
  ["sudo"; "make"; "-C"; install_path; "install"].
Definition pip_install_argv (install_path : string) : list string :=
  ["sudo"; "python3"; "-m"; "pip"; "install"; install_path].

Definition is_CalledProcessError (e : exn) : bool :=
  bool_decide (e = CalledProcessError).

Definition _build_package (install_path : string) : M unit :=
  try_except
    (has_makefile ← os_path_exists (os_path_join install_path "Makefile");
     (if has_makefile : bool then
        subprocess_run_checked c (make_argv install_path);;
        subprocess_run_checked c (make_install_argv install_path)
      else
        has_setup ← os_path_exists (os_path_join install_path "setup.py");
        if has_setup : bool
        then subprocess_run_checked c (pip_install_argv install_path)
        else mret tt);;
     print MsgBuildOk)
    is_CalledProcessError
    (fun _ => print MsgBuildFailed).

(** [repo_url.split('/')[-1].replace('.git', '')]; [split] never answers the
    empty list, so the index cannot fail. *)
Definition _extract_name (repo_url : string) : string :=
  PyStr.remove_all ".git" (default "" (last (PyStr.split slash repo_url))).

(** Lines 89-97 of [install]: obtain the checkout for [source]. *)
Definition acquire (repo_url install_path source : string) : M unit :=
  if decide (source = "latest-release") then
    latest_tag ← _get_latest_tag repo_url;
    match truthy latest_tag with
    | Some tag => Repo_clone_from c repo_url install_path (Some tag);; mret tt
    | None => Repo_clone_from c repo_url install_path None;; mret tt
    end
  else
    repo ← Repo_clone_from c repo_url install_path None;
    _checkout_version repo source.

(** [except (GitCommandError, PermissionError)] *)
Definition install_caught (e : exn) : bool :=
  bool_decide (e = GitCommandError) || bool_decide (e = PermissionError).

Definition install (repo_url source : string) (manual reinstall : bool) : M unit :=
  let package_name := _extract_name repo_url in
  install_path ← gets (fun w => os_path_join (package_dir w) package_name);
  present ← os_path_exists install_path;
  if present && negb reinstall then print (MsgAlreadyInstalled package_name)
  else
    try_except
      ((if reinstall : bool then
          still ← os_path_exists install_path;
          if still : bool then shutil_rmtree c install_path else mret tt
        else mret tt);;
       print (MsgInstalling package_name);;
       acquire repo_url install_path source;;
       (if manual : bool then mret tt else _build_package install_path);;
       modify (fun w =>
         with_metadata
           (<[package_name := mkRecord repo_url (Some source) (Some manual)]> (metadata w)) w);;
       _save_metadata;;
       print (MsgInstalled package_name))
      install_caught
      (fun e => print (MsgInstallError e)).

(** [self.metadata[package_name]] *)
Definition metadata_item (package_name : string) : M package_record :=
  fun w =>
    match metadata w !! package_name with
    | Some r => (Ok r, w)
    | None => (Raise KeyError, w)
    end.

(** [except GitCommandError] *)
Definition update_caught (e : exn) : bool := bool_decide (e = GitCommandError).

(** The condition of line 136 is read as
    [not manual and not self.metadata[package_name].get('manual', False)]. *)
Definition update (package_name : string) (manual : bool) : M unit :=
  known ← gets (fun w => bool_decide (is_Some (metadata w !! package_name)));
  if negb known then print (MsgNotFound package_name)
  else
    package_path ← gets (fun w => os_path_join (package_dir w) package_name);
    try_except
      (print (MsgUpdating package_name);;
       repo ← Repo_open c package_path;
       r ← metadata_item package_name;
       let source_spec := default "main" (rec_source r) in
       (if decide (source_spec = "latest-release") then
          r' ← metadata_item package_name;
          latest_tag ← _get_latest_tag (rec_url r');
          match truthy latest_tag with
          | Some tag => Repo_fetch_tags c repo;; Repo_checkout c repo tag
          | None => mret tt
          end
        else Repo_pull c repo);;
       rebuild ← (if manual : bool then mret false
                  else r'' ← metadata_item package_name;
                       mret (negb (default false (rec_manual r''))));
       (if rebuild : bool then _build_package package_path else mret tt);;
       print (MsgUpdated package_name))
      update_caught
      (fun e => print (MsgUpdateError e)).

Definition reinstall (package_name : string) (manual : bool) : M unit :=
  known ← gets (fun w => bool_decide (is_Some (metadata w !! package_name)));
  if negb known then print (MsgNotFound package_name)
  else
    r ← metadata_item package_name;
    install (rec_url r) (default "main" (rec_source r))
            (manual || default false (rec_manual r)) true.

End Gitstaller.

(** ** Vocabulary of the statements *)

(** The workspace of the package that [repo_url] names. *)
Definition install_path (w : world) (repo_url : string) : string :=
  os_path_join (package_dir w) (_extract_name repo_url).

(** What a call printed and which collaborator calls it made: the part of
    the console and of the trace that it appended. *)
Definition printed (w w' : world) : list message := drop (length (console w)) (console w').
Definition called (w w' : world) : list event := drop (length (trace w)) (trace w').

(** The events of the build step: detection of a build descriptor and the
    build and install commands.  ([update] checks the existence of no other
    path.) *)
Definition build_event (e : event) : bool :=
  match e with
  | EvExists _ | EvRun _ => true
  | _ => false
  end.

(** Messages other than the final verdict of [install]. *)
Definition progress_message (m : message) : bool :=
  match m with
  | MsgInstalling _ | MsgNoReleases | MsgBuildOk | MsgBuildFailed => true
  | _ => false
  end.

(** The text that [git ls-remote --tags] prints for lightweight tags: one
    line [<object id> TAB refs/tags/<name>] per tag, without the final
    newline (GitPython strips it). *)
Definition ls_remote_line (ref : string * string) : string :=
  ref.1 +:+ String tab ("refs/tags/" +:+ ref.2).

Definition ls_remote_output (refs : list (string * string)) : string :=
  PyStr.join (String newline "") (ls_remote_line <$> refs).

Fixpoint occurs (ch : ascii) (s : string) : bool :=
  match s with
  | EmptyString => false
  | String a s' => bool_decide (a = ch) || occurs ch s'
  end.

(** An object id holds no tab or newline; a tag name holds no tab, newline
    or slash. *)
Definition plain_ref (ref : string * string) : bool :=
  negb (occurs tab ref.1) && negb (occurs newline ref.1) &&
  negb (occurs tab ref.2) && negb (occurs newline ref.2) && negb (occurs slash ref.2).

(** [LooseVersion(a) < LooseVersion(b)] *)
Definition version_lt (a b : string) : result bool :=
  Version.__lt__ (Version.LooseVersion_init a) (Version.LooseVersion_init b).

Definition is_ok {A} (r : result A) : bool :=
  match r with
  | Ok _ => true
  | Raise _ => false
  end.

(** Every two of the names can be compared: no comparison raises. *)
Definition comparable (names : list string) : bool :=
  forallb (fun a => forallb (fun b => is_ok (version_lt a b)) names) names.

(** The canonical name as the specification words it: the final path segment
    of the locator, a trailing [".git"] stripped. *)
Definition strip_suffix (suffix s : string) : string :=
  if PyStr.endswith suffix s
  then String.substring 0 (String.length s - String.length suffix) s
  else s.

Definition canonical_name_spec (locator : string) : string :=
  strip_suffix ".git" (default "" (last (PyStr.split slash locator))).

(** *** Sample collaborators and worlds *)

(** A remote that answers every call; its tree holds a makefile and a
    packaging script, its build tools exit non-zero. *)
Definition sample_remote (listing : string) : collaborators := {|
  ls_remote := fun _ => Ok listing;
  clone_from := fun _ _ _ => Ok ["Makefile"; "setup.py"];
  clone_residue := fun _ => false;
  open_repo := fun _ => Ok tt;
  repo_tags := fun _ => [];
  git_checkout := fun _ _ => Ok ["Makefile"; "setup.py"];
  git_fetch_tags := fun _ => Ok tt;
  origin_pull := fun _ => Ok ["Makefile"; "setup.py"];
  rmtree := fun _ => Ok tt;
  subprocess_run := fun _ => Raise CalledProcessError;
|}.

(** The same remote, unreachable for clones. *)
Definition sample_offline : collaborators := {|
  ls_remote := fun _ => Raise GitCommandError;
  clone_from := fun _ _ _ => Raise GitCommandError;
  clone_residue := fun _ => false;
  open_repo := fun _ => Ok tt;
  repo_tags := fun _ => [];
  git_checkout := fun _ _ => Raise GitCommandError;
  git_fetch_tags := fun _ => Raise GitCommandError;
  origin_pull := fun _ => Raise GitCommandError;
  rmtree := fun _ => Ok tt;
  subprocess_run := fun _ => Ok tt;
|}.

Definition sample_refs : list (string * string) :=
  [("1a", "v1.2.0"); ("2b", "v1.9.0"); ("3c", "v1.10.0")].

Definition sample_url : string := "https://example.org/foo.git".

Definition sample_home : string := "/home/u/.gitstaller/packages".

(** A fresh installation: nothing on disk, no record. *)
Definition sample_fresh : world := mkWorld sample_home ∅ ∅ ∅ [] [].

(** [foo] installed from [main]; [manual] as given. *)
Definition sample_installed (manual : bool) : world :=
  let store : gmap string package_record :=
    {[ "foo" := mkRecord sample_url (Some "main") (Some manual) ]} in
  mkWorld sample_home
    {[ os_path_join sample_home "foo"; os_path_join (os_path_join sample_home "foo") "Makefile" ]}
    store store [] [].

(** *** A total order that extends the comparison of versions *)

(** Lexicographic comparison of lists. *)
Fixpoint lex_compare {T} (cmp : T -> T -> comparison) (a b : list T) : comparison :=
  match a, b with
  | [], [] => Eq
  | [], _ :: _ => Lt
  | _ :: _, [] => Gt
  | x :: a', y :: b' =>
      match cmp x y with
      | Eq => lex_compare cmp a' b'
      | o => o
      end
  end.

(** Numbers among themselves, strings among themselves, and (where Python
    raises) every number before every string. *)
Definition total_compare_component (x y : Version.component) : comparison :=
  match x, y with
  | Version.VInt m, Version.VInt n => N.compare m n
  | Version.VStr s, Version.VStr t => Stdlib.Strings.String.compare s t
  | Version.VInt _, Version.VStr _ => Lt
  | Version.VStr _, Version.VInt _ => Gt
  end.

Definition total_compare : list Version.component -> list Version.component -> comparison :=
  lex_compare total_compare_component.

Definition is_lt (o : comparison) : bool :=
  match o with
  | Lt => true
  | _ => false
  end.

(** The components of a version object; none for [LooseVersion('')]. *)
Definition components (v : Version.LooseVersion) : list Version.component :=
  default [] (Version.version v).

Definition total_lt (v w : Version.LooseVersion) : bool :=
  is_lt (total_compare (components v) (components w)).

(** The key that [_get_latest_tag] sorts a line by. *)
Definition line_key (t : string) : Version.LooseVersion :=
  Version.LooseVersion_init (default "" (last (PyStr.split slash t))).

(** The tags of the example in the specification. *)
Definition three_tags : list string := ["v1.2.0"; "v1.9.0"; "v1.10.0"].

(** *** Triples and frames *)

(** [hoare P m Q]: run from a world satisfying [P], [m] ends (normally or
    by raising) in a result and world satisfying [Q]. *)
Definition hoare {A} (P : world -> Prop) (m : M A) (Q : result A -> world -> Prop) : Prop :=
  forall w, P w -> Q (m w).1 (m w).2.

Definition inv {A} (I : world -> Prop) (m : M A) : Prop := hoare I m (fun _ => I).

(** [frame Pm Pe w0 w]: since [w0] the store is untouched, and only
    messages in [Pm] were printed and only calls in [Pe] were made. *)
Record frame (Pm : message -> Prop) (Pe : event -> Prop) (w0 w : world) : Prop := mkFrame {
  frame_dir : package_dir w = package_dir w0;
  frame_metadata : metadata w = metadata w0;
  frame_file : metadata_file w = metadata_file w0;
  frame_console : exists d, console w = console w0 ++ d /\ Forall Pm d;
  frame_trace : exists d, trace w = trace w0 ++ d /\ Forall Pe d;
}.

Definition is_progress (m : message) : Prop := progress_message m = true.
Definition any_message (m : message) : Prop := True.
Definition not_save (e : event) : Prop := e <> EvSave.
Definition not_build (e : event) : Prop := build_event e = false.

(** *** Outcomes of [install] *)

(** The call gave up on exception [e]: the store is as before and nothing
    was saved; a caught exception is reported on the console, any other
    propagates to the caller. *)
Definition aborted (w : world) (e : exn) (r : result unit * world) : Prop :=
  package_dir r.2 = package_dir w /\
  metadata r.2 = metadata w /\ metadata_file r.2 = metadata_file w /\
  (EvSave ∉ called w r.2) /\
  exists d, Forall is_progress d /\
    if install_caught e
    then r.1 = Ok tt /\ printed w r.2 = d ++ [MsgInstallError e]
    else r.1 = Raise e /\ printed w r.2 = d.

(** The call ran to its end: the record is written and saved, the workspace
    exists and success is the last thing reported. *)
Definition completed (w : world) (name path : string) (rec : package_record)
    (r : result unit * world) : Prop :=
  r.1 = Ok tt /\
  package_dir r.2 = package_dir w /\
  metadata r.2 = <[name := rec]> (metadata w) /\
  metadata_file r.2 = metadata r.2 /\
  (path ∈ fs r.2) /\
  exists d, Forall is_progress d /\ printed w r.2 = d ++ [MsgInstalled name].


(** ** Further vocabulary *)

(** [old in s] *)
Fixpoint has_sub (old s : string) : bool :=
  PyStr.startswith old s ||
  match s with
  | EmptyString => false
  | String _ s' => has_sub old s'
  end.

(** Since [w0] only calls in [Pe] were made. *)
Definition logs (Pe : event -> Prop) (w0 w : world) : Prop :=
  exists d, trace w = trace w0 ++ d /\ Forall Pe d.

Definition not_run (e : event) : Prop := forall argv, e <> EvRun argv.
Definition not_tags (e : event) : Prop := forall repo, e <> EvTags repo.

(** Calls that destroy or replace a workspace or write the store. *)
Definition destructive (e : event) : bool :=
  match e with
  | EvRmtree _ | EvClone _ _ _ | EvSave => true
  | _ => false
  end.

Definition not_destructive (e : event) : Prop := destructive e = false.

(** Calls that resolve or move a checkout by a ref. *)
Definition ref_event (e : event) : bool :=
  match e with
  | EvLsRemote _ | EvFetchTags _ | EvCheckout _ _ | EvTags _ => true
  | _ => false
  end.

(** Events of [update] that move the working tree. *)
Definition not_pull (e : event) : Prop := forall repo, e <> EvPull repo.
Definition not_ref_event (e : event) : Prop := ref_event e = false.

(** What the remote lists when the tags v1.2.0, v1.9.0 and v1.10.0 are
    annotated: after the line of each tag, the line of the commit it points
    to, under the name [<tag>^{}]. *)
Definition annotated_refs : list (string * string) :=
  [("3a", "v1.10.0"); ("3b", "v1.10.0^{}");
   ("1a", "v1.2.0"); ("1b", "v1.2.0^{}");
   ("2a", "v1.9.0"); ("2b", "v1.9.0^{}")].

(** A remote that can be cloned but has no ref of the name asked for: every
    checkout fails. *)
Definition sample_no_ref : collaborators := {|
  ls_remote := fun _ => Ok "";
  clone_from := fun _ _ _ => Ok ["Makefile"];
  clone_residue := fun _ => false;
  open_repo := fun _ => Ok tt;
  repo_tags := fun _ => [];
  git_checkout := fun _ _ => Raise GitCommandError;
  git_fetch_tags := fun _ => Ok tt;
  origin_pull := fun _ => Ok ["Makefile"];
  rmtree := fun _ => Ok tt;
  subprocess_run := fun _ => Ok tt;
|}.

(** * Proofs *)

#[local] Arguments os_path_join : simpl never.
#[local] Arguments put_tree : simpl never.
#[local] Arguments remove_tree : simpl never.
#[local] Arguments make_argv : simpl never.
#[local] Arguments make_install_argv : simpl never.
#[local] Arguments pip_install_argv : simpl never.

Ltac munfold :=
  unfold mbind, mret, M_bind, M_ret, emit, print, gets, modify, lift, try_except in *.

(** ** Rules for triples *)

Section Rules.
Context {A B : Type}.

Lemma hoare_conseq (P P' : world -> Prop) (Q Q' : result A -> world -> Prop) (m : M A) :
  hoare P' m Q' ->
  (forall w, P w -> P' w) ->
  (forall r w, Q' r w -> Q r w) ->
  hoare P m Q.
Proof. intros Hm Hp Hq w Hw. apply Hq, Hm, Hp, Hw. Qed.

Lemma hoare_bind (P : world -> Prop) (Q1 : result A -> world -> Prop)
    (Q : result B -> world -> Prop) (m : M A) (k : A -> M B) :
  hoare P m Q1 ->
  (forall a, hoare (Q1 (Ok a)) (k a) Q) ->
  (forall e w, Q1 (Raise e) w -> Q (Raise e) w) ->
  hoare P (m ≫= k) Q.
Proof.
  intros Hm Hk He w Hw. specialize (Hm w Hw). munfold.
  destruct (m w) as [[a|e] w1]; cbn in *.
  - apply Hk, Hm.
  - apply He, Hm.
Qed.

Lemma inv_bind (I : world -> Prop) (m : M A) (k : A -> M B) :
  inv I m -> (forall a, inv I (k a)) -> inv I (m ≫= k).
Proof. intros Hm Hk. eapply hoare_bind; [exact Hm | exact Hk | auto]. Qed.

Lemma inv_try_except (I : world -> Prop) (body : M A) caught (handler : exn -> M A) :
  inv I body -> (forall e, inv I (handler e)) -> inv I (try_except body caught handler).
Proof.
  intros Hb Hh w Hw. specialize (Hb w Hw). munfold.
  destruct (body w) as [[a|e] w1]; cbn in *; [done|].
  destruct (caught e); [apply Hh, Hb | done].
Qed.

Lemma inv_ret (I : world -> Prop) (a : A) : inv I (mret a).
Proof. intros w Hw. exact Hw. Qed.

Lemma inv_lift (I : world -> Prop) (r : result A) : inv I (lift r).
Proof. intros w Hw. exact Hw. Qed.

Lemma inv_gets (I : world -> Prop) (f : world -> A) : inv I (gets f).
Proof. intros w Hw. exact Hw. Qed.

End Rules.

Lemma inv_modify (I : world -> Prop) (f : world -> world) :
  (forall w, I w -> I (f w)) -> inv I (modify f).
Proof. intros Hf w Hw. apply Hf, Hw. Qed.

Lemma inv_metadata_item (I : world -> Prop) (name : string) : inv I (metadata_item name).
Proof. intros w Hw. unfold metadata_item. by destruct (metadata w !! name). Qed.

(** ** Frames *)

Section Frames.
Variable Pm : message -> Prop.
Variable Pe : event -> Prop.
Variable w0 : world.

Lemma frame_refl : frame Pm Pe w0 w0.
Proof.
  split; try done; exists []; rewrite app_nil_r; auto.
Qed.

Lemma frame_emit e : Pe e -> inv (frame Pm Pe w0) (emit e).
Proof.
  intros He. apply inv_modify. intros w [Hd Hm Hf Hc [d [Ht Hall]]].
  split; cbn; try done.
  exists (d ++ [e]). rewrite Ht, <- app_assoc. split; [done|].
  apply Forall_app; auto.
Qed.

Lemma frame_print m : Pm m -> inv (frame Pm Pe w0) (print m).
Proof.
  intros He. apply inv_modify. intros w [Hd Hm Hf [d [Ht Hall]] Hc].
  split; cbn; try done.
  exists (d ++ [m]). rewrite Ht, <- app_assoc. split; [done|].
  apply Forall_app; auto.
Qed.

Lemma frame_with_fs (g : world -> gset string) :
  inv (frame Pm Pe w0) (modify (fun w => with_fs (g w) w)).
Proof. apply inv_modify. intros w [Hd Hm Hf Hc Ht]. split; cbn; done. Qed.

End Frames.

(** ** Frames of the collaborator calls and of the methods *)

(** Walks a computation, keeping a frame; [pre] is tried first at every
    step, [side] settles what an emitted event or printed message must
    satisfy. *)
Ltac frame_steps_with pre side :=
  repeat first
    [ pre
    | apply inv_bind
    | apply inv_try_except
    | apply inv_ret
    | apply inv_lift
    | apply inv_gets
    | apply inv_metadata_item
    | apply frame_with_fs
    | apply frame_emit; side
    | apply frame_print; side
    | match goal with |- forall _, _ => intro end
    | case_match ].

Ltac frame_steps side := frame_steps_with fail side.

Ltac unfold_calls :=
  unfold _get_latest_tag in *;
  unfold os_path_exists, shutil_rmtree, Git_ls_remote, Repo_clone_from, Repo_open,
    Repo_tags, Repo_checkout, Repo_fetch_tags, Repo_pull, subprocess_run_checked,
    _save_metadata in *.

Section MethodFrames.
Variable c : collaborators.
Variable w0 : world.

Lemma acquire_frame url path source :
  inv (frame is_progress not_save w0) (acquire c url path source).
Proof.
  unfold acquire, _checkout_version. unfold_calls.
  frame_steps ltac:(done).
Qed.

Lemma build_frame path :
  inv (frame is_progress not_save w0) (_build_package c path).
Proof.
  unfold _build_package. unfold_calls.
  frame_steps ltac:(done).
Qed.

End MethodFrames.

(** ** Outcomes of [install] *)

Lemma printed_app w w' d : console w' = console w ++ d -> printed w w' = d.
Proof. intros H. unfold printed. by rewrite H, drop_app_length. Qed.

Lemma called_app w w' d : trace w' = trace w ++ d -> called w w' = d.
Proof. intros H. unfold called. by rewrite H, drop_app_length. Qed.

Lemma elem_of_put_tree path tree f : path ∈ put_tree path tree f.
Proof. unfold put_tree. set_solver. Qed.


Lemma aborted_intro w w' e :
  frame is_progress not_save w w' ->
  aborted w e (if install_caught e
               then (Ok tt, with_console (console w' ++ [MsgInstallError e]) w')
               else (Raise e, w')).
Proof.
  intros [Hd Hm Hf (d & Hc & Hp) (t & Ht & Hs)]. unfold aborted.
  destruct (install_caught e); cbn.
  - repeat split; try done.
    + rewrite (called_app _ _ t) by done. intros Hin.
      by apply (proj1 (Forall_forall _ _) Hs) in Hin.
    + exists d. split; [done|]. split; [done|].
      apply printed_app. cbn. by rewrite Hc, <- app_assoc.
  - repeat split; try done.
    + rewrite (called_app _ _ t) by done. intros Hin.
      by apply (proj1 (Forall_forall _ _) Hs) in Hin.
    + exists d. split; [done|]. split; [done|]. by apply printed_app.
Qed.

Lemma completed_intro w w3 name path rec :
  frame is_progress not_save w w3 ->
  path ∈ fs w3 ->
  completed w name path rec
    (Ok tt,
     with_console (console w3 ++ [MsgInstalled name])
       (with_metadata_file (<[name:=rec]> (metadata w3))
          (with_trace (trace w3 ++ [EvSave])
             (with_metadata (<[name:=rec]> (metadata w3)) w3)))).
Proof.
  intros [Hd Hm Hf (d & Hc & Hp) Ht] Hin. unfold completed. cbn.
  rewrite Hm. repeat split; try done.
  exists d. split; [done|]. apply printed_app. cbn. by rewrite Hc, <- app_assoc.
Qed.

Section Install.
Variable c : collaborators.
Lemma acquire_result_indep url path source w1 w2 :
  (acquire c url path source w1).1 = (acquire c url path source w2).1.
Proof.
  unfold acquire, _checkout_version. unfold_calls. munfold. cbn.
  repeat (case_match; simplify_eq/=; try done).
Qed.

Lemma acquire_ok_exists url path source w :
  (acquire c url path source w).1 = Ok tt ->
  path ∈ fs (acquire c url path source w).2.
Proof.
  unfold acquire, _checkout_version. unfold_calls. munfold. cbn.
  repeat (case_match; simplify_eq/=; try done); intros _; try apply elem_of_put_tree.
  all: unfold put_tree; set_solver.
Qed.

Lemma build_fs path w : fs (_build_package c path w).2 = fs w.
Proof.
  unfold _build_package. unfold_calls. munfold. cbn.
  repeat (case_match; simplify_eq/=; try done).
Qed.

Lemma build_ok path w :
  (forall argv, subprocess_run c argv = Ok tt \/ subprocess_run c argv = Raise CalledProcessError) ->
  (_build_package c path w).1 = Ok tt.
Proof.
  intros H. unfold _build_package. unfold_calls. munfold. cbn.
  pose proof (H (make_argv path)) as H1.
  pose proof (H (make_install_argv path)) as H2.
  pose proof (H (pip_install_argv path)) as H3. clear H.
  repeat (case_match; simplify_eq/=; try done);
    repeat match goal with
           | D : _ = Ok tt \/ _ = Raise CalledProcessError, E : _ = _ |- _ =>
               destruct D as [D|D]; rewrite D in E; simplify_eq; try done
           end.
Qed.

Lemma install_outcome url source manual reinstall w :
  let name := _extract_name url in
  let path := install_path w url in
  let rec := mkRecord url (Some source) (Some manual) in
  let r := install c url source manual reinstall w in
  (path ∈ fs w -> reinstall = true) ->
  match (if reinstall && bool_decide (path ∈ fs w) then rmtree c path else Ok tt) with
  | Raise e => aborted w e r
  | Ok _ =>
      match (acquire c url path source w).1 with
      | Raise e => aborted w e r
      | Ok _ =>
          if manual then completed w name path rec r
          else exists w2,
            match (_build_package c path w2).1 with
            | Raise e => aborted w e r
            | Ok _ => completed w name path rec r
            end
      end
  end.
Proof.
  intros name path rec r Hguard.
  assert (Hr : r = install c url source manual reinstall w) by reflexivity.
  clearbody r. subst name path rec. unfold install, install_path in *.
  unfold_calls. munfold. cbn in Hr.
  set (name := _extract_name url) in *.
  set (path := os_path_join (package_dir w) name) in *.
  set (rec := mkRecord url (Some source) (Some manual)) in *.
  destruct reinstall, (bool_decide (path ∈ fs w)) eqn:Hin;
    try (apply bool_decide_eq_true in Hin; specialize (Hguard Hin); discriminate);
    cbn in *; rewrite ?Hin in Hr; cbn in *.
  1: destruct (rmtree c path) as [[]|e] eqn:Erm.
  2: { subst r. apply aborted_intro.
       split; cbn; try done.
       - exists []. by rewrite app_nil_r.
       - eexists. rewrite <- !app_assoc. split; [done|]. by repeat constructor. }
  all: match type of Hr with
       | context [acquire _ _ _ _ ?W1] =>
           assert (Hw1 : frame is_progress not_save w W1)
             by (split; cbn; try done;
                 [ exists [MsgInstalling name]; split; [done | by repeat constructor]
                 | eexists; rewrite <- ?app_assoc; split; [done | by repeat constructor] ]);
           pose proof (acquire_frame c w url path source W1 Hw1) as Hw2;
           pose proof (acquire_ok_exists url path source W1) as Hex;
           rewrite (acquire_result_indep url path source w W1);
           destruct (acquire c url path source W1) as [[[]|e] w2]
       end; cbn in *.
  all: try (subst r; by apply aborted_intro).
  all: destruct manual; cbn in *.
  all: try (subst r; apply completed_intro; auto).
  all: exists w2; pose proof (build_frame c w path w2 Hw2) as Hw3;
       pose proof (build_fs path w2) as Hfs;
       destruct (_build_package c path w2) as [[[]|e] w3]; cbn in *.
  all: try (subst r; by apply aborted_intro).
  all: subst r; apply completed_intro; auto; rewrite Hfs; auto.
Qed.

Lemma install_unguarded_outcome (url source : string) (manual reinstall : bool) (w : world) :
  (install_path w url ∈ fs w -> reinstall = true) ->
  (reinstall = true -> install_path w url ∈ fs w -> rmtree c (install_path w url) = Ok tt) ->
  match (acquire c url (install_path w url) source w).1 with
  | Raise e => aborted w e (install c url source manual reinstall w)
  | Ok _ =>
      if manual
      then completed w (_extract_name url) (install_path w url)
             (mkRecord url (Some source) (Some manual)) (install c url source manual reinstall w)
      else exists w2,
        match (_build_package c (install_path w url) w2).1 with
        | Raise e => aborted w e (install c url source manual reinstall w)
        | Ok _ => completed w (_extract_name url) (install_path w url)
                    (mkRecord url (Some source) (Some manual))
                    (install c url source manual reinstall w)
        end
  end.
Proof.
  intros Hguard Hrm.
  pose proof (install_outcome url source manual reinstall w Hguard) as H. cbn zeta in H.
  destruct reinstall; cbn in H; [|exact H].
  destruct (bool_decide (install_path w url ∈ fs w)) eqn:Hin; [|exact H].
  apply bool_decide_eq_true in Hin. rewrite (Hrm eq_refl Hin) in H. exact H.
Qed.

End Install.

(** ** Install: failure of the version-control collaborator *)

(** C3.  When the clone-or-checkout phase of an install raises an exception
    that [install] catches ([GitCommandError], and likewise
    [PermissionError]), the call returns normally, the in-memory metadata and
    the saved file are what they were, no save was made, and the last line
    printed reports that error. *)
Theorem install_vcs_error_keeps_store (c : collaborators) (url source : string)
    (manual reinstall : bool) (w : world) (e : exn) :
  let path := install_path w url in
  let r := install c url source manual reinstall w in
  (path ∈ fs w -> reinstall = true) ->
  (reinstall = true -> path ∈ fs w -> rmtree c path = Ok tt) ->
  (acquire c url path source w).1 = Raise e ->
  install_caught e = true ->
  r.1 = Ok tt /\
  metadata r.2 = metadata w /\
  metadata_file r.2 = metadata_file w /\
  (EvSave ∉ called w r.2) /\
  last (printed w r.2) = Some (MsgInstallError e).
Proof.
  intros path r Hguard Hrm Hacq Hcaught. subst path r.
  pose proof (install_unguarded_outcome c url source manual reinstall w Hguard Hrm) as H.
  rewrite Hacq in H. destruct H as (_ & Hm & Hf & Hs & d & _ & H).
  rewrite Hcaught in H. destruct H as [Hr Hp].
  repeat split; try done. rewrite Hp. apply last_snoc.
Qed.

Lemma install_vcs_error_keeps_store_witness :
  let r := install sample_offline sample_url "main" false false sample_fresh in
  r.1 = Ok tt /\
  metadata r.2 = metadata sample_fresh /\
  metadata_file r.2 = metadata_file sample_fresh /\
  (EvSave ∉ called sample_fresh r.2) /\
  last (printed sample_fresh r.2) = Some (MsgInstallError GitCommandError).
Proof.
  apply (install_vcs_error_keeps_store sample_offline sample_url "main" false false
           sample_fresh GitCommandError).
  - intros H. by apply not_elem_of_empty in H.
  - intros H. discriminate H.
  - reflexivity.
  - reflexivity.
Defined.

(** ** Install: failure of the build step *)

(** C4.  With [manual=False], when the checkout is obtained and every
    build command either succeeds or exits non-zero ([CalledProcessError]),
    the install returns normally, the record is written to the metadata and
    saved to the file, and the last line printed reports success. *)
Theorem install_records_despite_build_failure (c : collaborators) (url source : string)
    (reinstall : bool) (w : world) :
  let name := _extract_name url in
  let path := install_path w url in
  let r := install c url source false reinstall w in
  (path ∈ fs w -> reinstall = true) ->
  (reinstall = true -> path ∈ fs w -> rmtree c path = Ok tt) ->
  (acquire c url path source w).1 = Ok tt ->
  (forall argv, subprocess_run c argv = Ok tt \/ subprocess_run c argv = Raise CalledProcessError) ->
  r.1 = Ok tt /\
  metadata r.2 = <[name := mkRecord url (Some source) (Some false)]> (metadata w) /\
  metadata_file r.2 = metadata r.2 /\
  (path ∈ fs r.2) /\
  last (printed w r.2) = Some (MsgInstalled name).
Proof.
  intros name path r Hguard Hrm Hacq Hrun. subst name path r.
  pose proof (install_unguarded_outcome c url source false reinstall w Hguard Hrm) as H.
  rewrite Hacq in H. destruct H as (w2 & H).
  rewrite (build_ok c _ w2 Hrun) in H.
  destruct H as (Hr & _ & Hm & Hf & Hin & d & _ & Hp).
  repeat split; try done. rewrite Hp. apply last_snoc.
Qed.

Lemma install_records_despite_build_failure_witness :
  let r := install (sample_remote "") sample_url "main" false false sample_fresh in
  r.1 = Ok tt /\
  metadata r.2 = <[_extract_name sample_url := mkRecord sample_url (Some "main") (Some false)]>
                   (metadata sample_fresh) /\
  metadata_file r.2 = metadata r.2 /\
  (install_path sample_fresh sample_url ∈ fs r.2) /\
  last (printed sample_fresh r.2) = Some (MsgInstalled (_extract_name sample_url)).
Proof.
  apply (install_records_despite_build_failure (sample_remote "") sample_url "main" false
           sample_fresh).
  - intros H. by apply not_elem_of_empty in H.
  - intros H. discriminate H.
  - reflexivity.
  - intros argv. right. reflexivity.
Defined.

(** The sample run behind the witness: [make] exits non-zero, which is
    printed, and the install is still recorded and reported. *)
Example install_with_failing_make :
  let r := install (sample_remote "") sample_url "main" false false sample_fresh in
  printed sample_fresh r.2 = [MsgInstalling "foo"; MsgBuildFailed; MsgInstalled "foo"] /\
  called sample_fresh r.2 =
    [EvExists "/home/u/.gitstaller/packages/foo";
     EvClone sample_url "/home/u/.gitstaller/packages/foo" None;
     EvCheckout "/home/u/.gitstaller/packages/foo" "main";
     EvExists "/home/u/.gitstaller/packages/foo/Makefile";
     EvRun ["make"; "-C"; "/home/u/.gitstaller/packages/foo"];
     EvSave] /\
  metadata_file r.2 !! "foo" = Some (mkRecord sample_url (Some "main") (Some false)).
Proof. vm_compute. auto. Qed.

(** ** Install twice; reinstall *)

Lemma install_guarded (c : collaborators) (url source : string) (manual : bool) (w : world) :
  install_path w url ∈ fs w ->
  install c url source manual false w =
    (Ok tt, mkWorld (package_dir w) (fs w) (metadata w) (metadata_file w)
              (console w ++ [MsgAlreadyInstalled (_extract_name url)])
              (trace w ++ [EvExists (install_path w url)])).
Proof.
  intros Hin. unfold install, install_path in *. unfold_calls. munfold. cbn.
  rewrite bool_decide_eq_true_2 by done. reflexivity.
Qed.

Lemma install_cases (c : collaborators) (url source : string) (manual reinstall : bool)
    (w : world) :
  (install_path w url ∈ fs w -> reinstall = true) ->
  (exists e, aborted w e (install c url source manual reinstall w)) \/
  completed w (_extract_name url) (install_path w url)
    (mkRecord url (Some source) (Some manual)) (install c url source manual reinstall w).
Proof.
  intros Hguard.
  pose proof (install_outcome c url source manual reinstall w Hguard) as H. cbn zeta in H.
  destruct (if reinstall && _ then _ else _) as [[]|e]; [|by eauto].
  destruct (acquire c url _ source w).1 as [[]|e]; [|by eauto].
  destruct manual; [by eauto|].
  destruct H as [w2 H]. destruct (_build_package c _ w2).1 as [[]|e]; by eauto.
Qed.

Lemma progress_not_verdict (d : list message) (m : message) :
  Forall is_progress d -> progress_message m = false -> m ∉ d.
Proof.
  intros Hd Hm Hin. apply (proj1 (Forall_forall _ _) Hd) in Hin.
  unfold is_progress in Hin. congruence.
Qed.

Lemma last_progress (d : list message) (m : message) :
  Forall is_progress d -> progress_message m = false -> last d <> Some m.
Proof.
  intros Hd Hm Hl. apply last_Some in Hl as [d' ->].
  rewrite Forall_app, Forall_singleton in Hd. destruct Hd as [_ Hd].
  unfold is_progress in Hd. congruence.
Qed.

Lemma filter_key_absent (l : list (string * package_record)) (k : string) :
  k ∉ l.*1 -> filter (fun kv => kv.1 = k) l = [].
Proof.
  induction l as [|[k' v'] l IH]; intros H; [done|].
  rewrite fmap_cons in H. apply not_elem_of_cons in H as [H1 H2]. cbn in H1.
  rewrite filter_cons_False; [auto | cbn; congruence].
Qed.

Lemma filter_key_once (l : list (string * package_record)) (k : string) (v : package_record) :
  NoDup l.*1 -> (k, v) ∈ l -> length (filter (fun kv => kv.1 = k) l) = 1%nat.
Proof.
  induction l as [|[k' v'] l IH]; intros Hnd Hin.
  - by apply elem_of_nil in Hin.
  - rewrite fmap_cons in Hnd. apply NoDup_cons in Hnd as [Hk Hnd]. cbn in Hk.
    destruct (decide (k' = k)) as [->|Hne].
    + rewrite filter_cons_True by done. cbn. by rewrite filter_key_absent.
    + rewrite filter_cons_False by (cbn; congruence).
      apply IH; [done|]. apply elem_of_cons in Hin as [Heq|Hin]; [congruence | done].
Qed.

Lemma one_record (m : gmap string package_record) (k : string) (v : package_record) :
  m !! k = Some v -> length (filter (fun kv => kv.1 = k) (map_to_list m)) = 1%nat.
Proof.
  intros H. apply (filter_key_once _ k v).
  - apply NoDup_fst_map_to_list.
  - by apply elem_of_map_to_list.
Qed.

(** C5 (as amended).  An install that reports success, followed by a second
    install of the same locator without [reinstall]: the second call
    returns normally, prints only "already installed", makes no call
    besides the existence check of the workspace, and leaves file system,
    metadata and saved file as they were; the metadata then holds exactly
    one record under the name, the one the first call wrote, and so does
    the saved file.  Whether an install without [reinstall] answers
    "already installed" depends on the existence of the workspace alone,
    whatever the metadata holds. *)
Theorem install_twice_already_installed (c c' : collaborators) (url source source' : string)
    (manual manual' : bool) (w : world) :
  let name := _extract_name url in
  let first := install c url source manual false w in
  let second := install c' url source' manual' false first.2 in
  (last (printed w first.2) = Some (MsgInstalled name) ->
   second.1 = Ok tt /\
   printed first.2 second.2 = [MsgAlreadyInstalled name] /\
   called first.2 second.2 = [EvExists (install_path w url)] /\
   fs second.2 = fs first.2 /\
   metadata second.2 = metadata first.2 /\
   metadata_file second.2 = metadata_file first.2 /\
   metadata second.2 !! name = Some (mkRecord url (Some source) (Some manual)) /\
   length (filter (fun kv => kv.1 = name) (map_to_list (metadata second.2))) = 1%nat /\
   metadata_file second.2 !! name = Some (mkRecord url (Some source) (Some manual)) /\
   length (filter (fun kv => kv.1 = name) (map_to_list (metadata_file second.2))) = 1%nat) /\
  (forall (c0 : collaborators) (w0 : world) (s : string) (m : bool),
     install_path w0 url ∈ fs w0 <->
     MsgAlreadyInstalled name ∈ printed w0 (install c0 url s m false w0).2).
Proof.
  intros name first second. split.
  - intros Hlast. subst second.
    assert (Hfresh : install_path w url ∉ fs w).
    { intros Hin. subst first. rewrite (install_guarded c url source manual w Hin) in Hlast.
      rewrite (printed_app _ _ [MsgAlreadyInstalled name]) in Hlast by done.
      discriminate Hlast. }
    destruct (install_cases c url source manual false w) as [[e Ha]|Hc]; [done| |].
    + exfalso. fold first in Ha. destruct Ha as (_ & _ & _ & _ & d & Hd & Ha).
      destruct (install_caught e); destruct Ha as [_ Hp]; rewrite Hp in Hlast.
      * rewrite last_snoc in Hlast. discriminate Hlast.
      * by apply (last_progress d (MsgInstalled name)) in Hlast.
    + fold first in Hc. destruct Hc as (Hr & Hdir' & Hm & Hf & Hin & _).
      assert (Hdir : install_path first.2 url = install_path w url)
        by (unfold install_path; by rewrite Hdir').
      rewrite <- Hdir in Hin.
      rewrite (install_guarded c' url source' manual' first.2 Hin). cbn.
      rewrite Hdir. repeat split; try done.
      * by apply printed_app.
      * by apply called_app.
      * rewrite Hm. apply lookup_insert_eq.
      * apply (one_record _ name (mkRecord url (Some source) (Some manual))).
        rewrite Hm. apply lookup_insert_eq.
      * rewrite Hf, Hm. apply lookup_insert_eq.
      * apply (one_record _ name (mkRecord url (Some source) (Some manual))).
        rewrite Hf, Hm. apply lookup_insert_eq.
  - intros c0 w0 s m. split.
    + intros Hin. rewrite (install_guarded c0 url s m w0 Hin).
      rewrite (printed_app _ _ [MsgAlreadyInstalled name]) by done. apply list_elem_of_singleton.
      done.
    + intros Hmsg. destruct (decide (install_path w0 url ∈ fs w0)) as [|Hfresh]; [done|].
      exfalso.
      destruct (install_cases c0 url s m false w0) as [[e Ha]|Hc]; [done| |].
      * destruct Ha as (_ & _ & _ & _ & d & Hd & Ha).
        destruct (install_caught e); destruct Ha as [_ Hp]; rewrite Hp in Hmsg.
        -- apply elem_of_app in Hmsg as [Hmsg|Hmsg].
           ++ by apply (progress_not_verdict d (MsgAlreadyInstalled name)) in Hmsg.
           ++ apply list_elem_of_singleton in Hmsg. discriminate Hmsg.
        -- by apply (progress_not_verdict d (MsgAlreadyInstalled name)) in Hmsg.
      * destruct Hc as (_ & _ & _ & _ & _ & d & Hd & Hp). rewrite Hp in Hmsg.
        apply elem_of_app in Hmsg as [Hmsg|Hmsg].
        -- by apply (progress_not_verdict d (MsgAlreadyInstalled name)) in Hmsg.
        -- apply list_elem_of_singleton in Hmsg. discriminate Hmsg.
Qed.

Lemma install_twice_already_installed_witness :
  let first := install (sample_remote "") sample_url "main" false false sample_fresh in
  let second := install sample_offline sample_url "latest-release" true false first.2 in
  second.1 = Ok tt /\
  printed first.2 second.2 = [MsgAlreadyInstalled "foo"] /\
  called first.2 second.2 = [EvExists (install_path sample_fresh sample_url)] /\
  fs second.2 = fs first.2 /\
  metadata second.2 = metadata first.2 /\
  metadata_file second.2 = metadata_file first.2 /\
  metadata second.2 !! "foo" = Some (mkRecord sample_url (Some "main") (Some false)) /\
  length (filter (fun kv => kv.1 = "foo") (map_to_list (metadata second.2))) = 1%nat /\
  metadata_file second.2 !! "foo" = Some (mkRecord sample_url (Some "main") (Some false)) /\
  length (filter (fun kv => kv.1 = "foo") (map_to_list (metadata_file second.2))) = 1%nat.
Proof.
  destruct (install_twice_already_installed (sample_remote "") sample_offline sample_url
              "main" "latest-release" false true sample_fresh) as [H _].
  apply H. reflexivity.
Defined.

(** C5 as stated fails: the first install need not write a record.  When
    its clone succeeds and the checkout of the requested ref fails, the
    workspace stays and nothing is recorded; the second install answers
    "already installed" while the metadata and the saved file hold no
    record under the name. *)
Lemma install_twice_without_record :
  let first := install sample_no_ref sample_url "main" false false sample_fresh in
  let second := install sample_no_ref sample_url "main" false false first.2 in
  first.1 = Ok tt /\
  last (printed sample_fresh first.2) = Some (MsgInstallError GitCommandError) /\
  second.1 = Ok tt /\
  printed first.2 second.2 = [MsgAlreadyInstalled "foo"] /\
  metadata second.2 !! "foo" = None /\
  metadata_file second.2 !! "foo" = None /\
  length (filter (fun kv => kv.1 = "foo") (map_to_list (metadata second.2))) = 0%nat /\
  length (filter (fun kv => kv.1 = "foo") (map_to_list (metadata_file second.2))) <> 1%nat.
Proof. vm_compute. repeat (apply conj); try reflexivity. discriminate. Qed.

(** ** Install from the latest release of a repository without tags *)

Lemma latest_tag_of_empty_listing : latest_tag_of "" = Raise IndexError.
Proof. reflexivity. Qed.

Lemma install_without_tags_raises (c : collaborators) (url : string) (manual reinstall : bool)
    (w : world) :
  let r := install c url "latest-release" manual reinstall w in
  (install_path w url ∈ fs w -> reinstall = true) ->
  (reinstall = true -> install_path w url ∈ fs w -> rmtree c (install_path w url) = Ok tt) ->
  ls_remote c url = Ok "" ->
  r.1 = Raise IndexError /\ metadata r.2 = metadata w /\ metadata_file r.2 = metadata_file w /\
  MsgInstalled (_extract_name url) ∉ printed w r.2.
Proof.
  intros r Hguard Hrm Hls. subst r.
  pose proof (install_unguarded_outcome c url "latest-release" manual reinstall w Hguard Hrm)
    as H.
  assert (Hacq : (acquire c url (install_path w url) "latest-release" w).1 = Raise IndexError).
  { unfold acquire. unfold_calls. munfold. cbn. rewrite Hls. reflexivity. }
  rewrite Hacq in H. destruct H as (_ & Hm & Hf & _ & d & Hd & Hr & Hp). cbn in Hr.
  repeat split; try done. rewrite Hp.
  by apply progress_not_verdict.
Qed.

(** C1 (the code departs from the claim).  On a remote without tags
    [ls_remote] answers the empty text; [''.split('\n')] is [['']], a
    non-empty list, so [_get_latest_tag] indexes [''.split('\t')[1]] and
    raises [IndexError] instead of answering [None].  [install] does not
    catch it: nothing is cloned, no record is written, the call raises. *)
Theorem install_latest_release_without_tags :
  let r := install (sample_remote "") sample_url "latest-release" false false sample_fresh in
  latest_tag_of "" = Raise IndexError /\
  r.1 = Raise IndexError /\
  printed sample_fresh r.2 = [MsgInstalling "foo"] /\
  called sample_fresh r.2 =
    [EvExists "/home/u/.gitstaller/packages/foo"; EvLsRemote sample_url] /\
  metadata r.2 = ∅ /\ metadata_file r.2 = ∅ /\ fs r.2 = ∅.
Proof. vm_compute. auto 10. Qed.

(** ** Reinstall *)

Lemma metadata_item_present (name : string) (r : package_record) (w : world) :
  metadata w !! name = Some r -> metadata_item name w = (Ok r, w).
Proof. intros H. unfold metadata_item. by rewrite H. Qed.

(** C8.  For a name with a record, [reinstall] is [install] on the stored
    locator and policy, with [manual] the disjunction of the caller's flag
    and the stored one, and [reinstall=True]; for an unknown name it prints
    "not found" and changes nothing else.  With both flags false, the record
    under the name still has [manual] false afterwards, and a completed
    reinstall writes [manual = False]. *)
Theorem reinstall_is_install (c : collaborators) (name : string) (manual : bool) (w : world) :
  (forall r, metadata w !! name = Some r ->
     reinstall c name manual w =
       install c (rec_url r) (default "main" (rec_source r))
               (manual || default false (rec_manual r)) true w) /\
  (metadata w !! name = None ->
     reinstall c name manual w = (Ok tt, with_console (console w ++ [MsgNotFound name]) w)) /\
  (forall r, metadata w !! name = Some r ->
     manual = false -> default false (rec_manual r) = false ->
     let after := (reinstall c name manual w).2 in
     (forall r', metadata after !! name = Some r' -> default false (rec_manual r') = false) /\
     (last (printed w after) = Some (MsgInstalled (_extract_name (rec_url r))) ->
      metadata after !! _extract_name (rec_url r) =
        Some (mkRecord (rec_url r) (Some (default "main" (rec_source r))) (Some false)))).
Proof.
  assert (Hsome : forall r, metadata w !! name = Some r ->
     reinstall c name manual w =
       install c (rec_url r) (default "main" (rec_source r))
               (manual || default false (rec_manual r)) true w).
  { intros r Hr. unfold reinstall. munfold. cbn.
    rewrite Hr. cbn. unfold metadata_item. by rewrite Hr. }
  split; [exact Hsome|]. split.
  - intros Hnone. unfold reinstall. munfold. cbn. by rewrite Hnone.
  - intros r Hr -> Hstored after. subst after. rewrite (Hsome r Hr), Hstored. cbn.
    destruct (install_cases c (rec_url r) (default "main" (rec_source r)) false true w)
      as [[e Ha]|Hc]; [done| |].
    + destruct Ha as (_ & Hm & _ & _ & d & Hd & Ha). split.
      * intros r' Hr'. rewrite Hm, Hr in Hr'. by simplify_eq.
      * intros Hlast. exfalso.
        destruct (install_caught e); destruct Ha as [_ Hp]; rewrite Hp in Hlast.
        -- rewrite last_snoc in Hlast. discriminate Hlast.
        -- by apply (last_progress d (MsgInstalled (_extract_name (rec_url r)))) in Hlast.
    + destruct Hc as (_ & _ & Hm & _). split.
      * intros r' Hr'. rewrite Hm in Hr'.
        destruct (decide (_extract_name (rec_url r) = name)) as [Heq|Hne].
        -- rewrite Heq, lookup_insert_eq in Hr'. by simplify_eq.
        -- rewrite lookup_insert_ne, Hr in Hr' by done. by simplify_eq.
      * intros _. rewrite Hm. apply lookup_insert_eq.
Qed.

Lemma reinstall_is_install_witness :
  reinstall (sample_remote "") "foo" false (sample_installed false) =
    install (sample_remote "") sample_url "main" false true (sample_installed false) /\
  reinstall (sample_remote "") "bar" false (sample_installed false) =
    (Ok tt, with_console [MsgNotFound "bar"] (sample_installed false)) /\
  metadata (reinstall (sample_remote "") "foo" false (sample_installed false)).2 !! "foo" =
    Some (mkRecord sample_url (Some "main") (Some false)).
Proof.
  destruct (reinstall_is_install (sample_remote "") "foo" false (sample_installed false))
    as (H1 & _ & H3).
  destruct (reinstall_is_install (sample_remote "") "bar" false (sample_installed false))
    as (_ & H2 & _).
  split; [|split].
  - apply (H1 (mkRecord sample_url (Some "main") (Some false))). reflexivity.
  - apply H2. reflexivity.
  - apply (H3 (mkRecord sample_url (Some "main") (Some false))); reflexivity.
Defined.

(** ** Update *)

Lemma update_frame (c : collaborators) (w0 : world) (name : string) (manual : bool) :
  inv (frame any_message not_save w0) (update c name manual).
Proof.
  unfold update, _build_package. unfold_calls.
  frame_steps ltac:(done).
Qed.

Lemma update_tail_quiet (c : collaborators) (w0 : world) (name path : string)
    (rec : package_record) (manual : bool) :
  metadata w0 !! name = Some rec ->
  manual || default false (rec_manual rec) = true ->
  inv (frame any_message not_build w0)
    (rebuild ← (if manual : bool then mret false
                else r'' ← metadata_item name;
                     mret (negb (default false (rec_manual r''))));
     (if rebuild : bool then _build_package c path else mret tt);;
     print (MsgUpdated name)).
Proof.
  intros Hrec Hflag w Hw. munfold.
  destruct manual; cbn.
  - by apply (frame_print any_message not_build w0 (MsgUpdated name)).
  - cbn in Hflag. unfold metadata_item.
    rewrite (frame_metadata _ _ _ _ Hw), Hrec. cbn. rewrite Hflag. cbn.
    by apply (frame_print any_message not_build w0 (MsgUpdated name)).
Qed.

Lemma update_quiet (c : collaborators) (name : string) (manual : bool) (w : world)
    (rec : package_record) :
  metadata w !! name = Some rec ->
  manual || default false (rec_manual rec) = true ->
  Forall not_build (called w (update c name manual w).2).
Proof.
  intros Hrec Hflag.
  assert (Hinv : inv (frame any_message not_build w) (update c name manual)).
  { unfold update. unfold_calls.
    frame_steps_with ltac:(apply (update_tail_quiet c w name _ rec manual Hrec Hflag))
                     ltac:(done). }
  destruct (Hinv w (frame_refl _ _ w)) as [_ _ _ _ (d & Ht & Hd)].
  by rewrite (called_app _ _ d).
Qed.

(** C7.  When the record of the package has [manual] set, [update] makes
    no call of the build collaborator (no detection of a build descriptor,
    no build or install command), whatever the caller's flag; and whenever
    [update] makes such a call, both the caller's flag and the stored flag
    are false. *)
Theorem update_respects_manual (c : collaborators) (name : string) (manual : bool) (w : world) :
  let after := (update c name manual w).2 in
  (forall rec, metadata w !! name = Some rec -> rec_manual rec = Some true ->
     Forall not_build (called w after)) /\
  ((exists e, e ∈ called w after /\ build_event e = true) ->
   manual = false /\
   exists rec, metadata w !! name = Some rec /\ default false (rec_manual rec) = false).
Proof.
  intros after. subst after. split.
  - intros rec Hrec Hstored. apply (update_quiet c name manual w rec Hrec).
    rewrite Hstored. apply orb_true_r.
  - intros (e & He & Hb).
    destruct (metadata w !! name) as [rec|] eqn:Hrec.
    + destruct (manual || default false (rec_manual rec)) eqn:Hflag.
      * pose proof (update_quiet c name manual w rec Hrec Hflag) as Hq.
        apply (proj1 (Forall_forall _ _) Hq) in He. unfold not_build in He. congruence.
      * apply orb_false_elim in Hflag as [-> Hs]. eauto.
    + exfalso. revert He. unfold update. munfold. cbn. rewrite Hrec. cbn.
      rewrite (called_app _ _ []) by (by rewrite app_nil_r). apply not_elem_of_nil.
Qed.

Lemma update_respects_manual_witness :
  Forall not_build
    (called (sample_installed true) (update (sample_remote "") "foo" false (sample_installed true)).2).
Proof.
  destruct (update_respects_manual (sample_remote "") "foo" false (sample_installed true))
    as [H _].
  apply (H (mkRecord sample_url (Some "main") (Some true))); reflexivity.
Defined.

(** The rebuild does run when neither flag is set. *)
Example update_rebuilds_when_not_manual :
  let w := sample_installed false in
  called w (update (sample_remote "") "foo" false w).2 =
    [EvOpenRepo "/home/u/.gitstaller/packages/foo";
     EvPull "/home/u/.gitstaller/packages/foo";
     EvExists "/home/u/.gitstaller/packages/foo/Makefile";
     EvRun ["make"; "-C"; "/home/u/.gitstaller/packages/foo"]] /\
  called (sample_installed true) (update (sample_remote "") "foo" false (sample_installed true)).2 =
    [EvOpenRepo "/home/u/.gitstaller/packages/foo";
     EvPull "/home/u/.gitstaller/packages/foo"].
Proof. vm_compute. auto. Qed.

(** C9.  [update] never assigns the metadata and never saves it: after the
    call, however it ends, the in-memory metadata and the saved file are
    what they were, and no save was made. *)
Theorem update_keeps_store (c : collaborators) (name : string) (manual : bool) (w : world) :
  let after := (update c name manual w).2 in
  metadata after = metadata w /\
  metadata_file after = metadata_file w /\
  EvSave ∉ called w after.
Proof.
  intros after. subst after.
  destruct (update_frame c w name manual w (frame_refl _ _ w)) as [_ Hm Hf _ (d & Ht & Hd)].
  repeat split; try done.
  rewrite (called_app _ _ d) by done. intros Hin.
  by apply (proj1 (Forall_forall _ _) Hd) in Hin.
Qed.

(** ** The build step *)

Ltac called_is :=
  apply called_app; cbn; rewrite <- ?app_assoc; reflexivity.

Lemma make_is_not_pip (path : string) : pip_install_argv path <> make_argv path.
Proof. discriminate. Qed.

Lemma make_install_is_not_pip (path : string) : pip_install_argv path <> make_install_argv path.
Proof. discriminate. Qed.

(** C10.  [_build_package] on a workspace with a [Makefile] (with or
    without a [setup.py]) probes the makefile only and runs [make], then
    [sudo make install] when [make] succeeded; [pip] is never run.  Without
    a [Makefile] and with a [setup.py] it runs the privileged [pip install]
    alone.  With neither it runs no command, returns normally and prints
    no failure. *)
Theorem build_package_descriptor_choice (c : collaborators) (path : string) (w : world) :
  let mk := os_path_join path "Makefile" in
  let sp := os_path_join path "setup.py" in
  let r := _build_package c path w in
  (mk ∈ fs w ->
     called w r.2 =
       EvExists mk :: EvRun (make_argv path) ::
         (if is_ok (subprocess_run c (make_argv path))
          then [EvRun (make_install_argv path)] else []) /\
     EvRun (pip_install_argv path) ∉ called w r.2) /\
  (mk ∉ fs w -> sp ∈ fs w ->
     called w r.2 = [EvExists mk; EvExists sp; EvRun (pip_install_argv path)]) /\
  (mk ∉ fs w -> sp ∉ fs w ->
     r.1 = Ok tt /\ called w r.2 = [EvExists mk; EvExists sp] /\
     printed w r.2 = [MsgBuildOk] /\ fs r.2 = fs w).
Proof.
  intros mk sp r. subst mk sp r. split; [|split].
  - intros Hmk.
    assert (Hc : called w (_build_package c path w).2 =
       EvExists (os_path_join path "Makefile") :: EvRun (make_argv path) ::
         (if is_ok (subprocess_run c (make_argv path))
          then [EvRun (make_install_argv path)] else [])).
    { unfold _build_package. unfold_calls. munfold. cbn.
      rewrite bool_decide_eq_true_2 by done. cbn.
      destruct (subprocess_run c (make_argv path)) as [[]|e]; cbn.
      - destruct (subprocess_run c (make_install_argv path)) as [[]|e]; cbn;
          [|destruct (is_CalledProcessError e); cbn]; called_is.
      - destruct (is_CalledProcessError e); cbn; called_is. }
    split; [exact Hc|]. rewrite Hc.
    intros Hin. apply elem_of_cons in Hin as [Hin|Hin]; [discriminate Hin|].
    apply elem_of_cons in Hin as [Hin|Hin].
    { apply (make_is_not_pip path). congruence. }
    destruct (is_ok _).
    + apply list_elem_of_singleton in Hin.
      apply (make_install_is_not_pip path). congruence.
    + by apply elem_of_nil in Hin.
  - intros Hmk Hsp. unfold _build_package. unfold_calls. munfold. cbn.
    rewrite (bool_decide_eq_false_2 _ Hmk). cbn.
    rewrite (bool_decide_eq_true_2 _ Hsp). cbn.
    destruct (subprocess_run c (pip_install_argv path)) as [[]|e]; cbn;
      [|destruct (is_CalledProcessError e); cbn]; called_is.
  - intros Hmk Hsp. unfold _build_package. unfold_calls. munfold. cbn.
    rewrite (bool_decide_eq_false_2 _ Hmk). cbn.
    rewrite (bool_decide_eq_false_2 _ Hsp). cbn.
    repeat split; [called_is | by apply printed_app].
Qed.

Lemma build_package_descriptor_choice_witness :
  let w := sample_installed false in
  let path := os_path_join sample_home "foo" in
  called w (_build_package (sample_remote "") path w).2 =
    [EvExists (os_path_join path "Makefile"); EvRun (make_argv path)] /\
  (_build_package (sample_remote "") path sample_fresh).1 = Ok tt /\
  called sample_fresh (_build_package (sample_remote "") path sample_fresh).2 =
    [EvExists (os_path_join path "Makefile"); EvExists (os_path_join path "setup.py")].
Proof.
  destruct (build_package_descriptor_choice (sample_remote "") (os_path_join sample_home "foo")
              (sample_installed false)) as ([H1 _] & _ & _); [by vm_compute|].
  destruct (build_package_descriptor_choice (sample_remote "") (os_path_join sample_home "foo")
              sample_fresh) as (_ & _ & H3).
  destruct H3 as (H3 & H4 & _); [apply not_elem_of_empty | apply not_elem_of_empty |].
  split; [exact H1 | split; [exact H3 | exact H4]].
Defined.

(** ** Package names *)

(** C6 (the code departs from the claim).  [_extract_name] removes every
    occurrence of [".git"] from the final path segment, not only a trailing
    one: a segment that does not end in [".git"] is not returned unchanged
    when it holds [".git"] elsewhere. *)
Theorem extract_name_removes_inner_git :
  _extract_name "https://github.com/octo/octo.github.io" = "octohub.io" /\
  canonical_name_spec "https://github.com/octo/octo.github.io" = "octo.github.io" /\
  _extract_name "https://example.org/foo.git.git" = "foo" /\
  canonical_name_spec "https://example.org/foo.git.git" = "foo.git".
Proof. repeat split; reflexivity. Qed.

(** On the usual locators the two agree. *)
Example extract_name_usual :
  _extract_name sample_url = "foo" /\ canonical_name_spec sample_url = "foo" /\
  _extract_name "git@example.org:team/tool" = "tool" /\
  canonical_name_spec "git@example.org:team/tool" = "tool".
Proof. repeat split; reflexivity. Qed.

(** ** Splitting the listing of a remote *)

#[local] Arguments String.append !_ _ / : simpl nomatch.

Section Split.
Variable sep : ascii.

Lemma split_nonempty (s : string) : PyStr.split sep s <> [].
Proof.
  destruct s as [|a s]; cbn; [done|].
  destruct (decide (a = sep)); [done|]. by destruct (PyStr.split sep s).
Qed.

Lemma split_without_sep (s : string) : occurs sep s = false -> PyStr.split sep s = [s].
Proof.
  induction s as [|a s IH]; cbn; [done|].
  intros H. apply orb_false_elim in H as [Ha Hs].
  apply bool_decide_eq_false in Ha.
  destruct (decide (a = sep)); [done|]. by rewrite IH.
Qed.

Lemma split_app_sep (a b : string) :
  PyStr.split sep (a +:+ String sep b) = PyStr.split sep a ++ PyStr.split sep b.
Proof.
  induction a as [|x a IH]; cbn.
  - by rewrite decide_True.
  - destruct (decide (x = sep)).
    + by rewrite IH.
    + rewrite IH. pose proof (split_nonempty a).
      by destruct (PyStr.split sep a).
Qed.

Lemma split_at_sep (a b : string) :
  occurs sep a = false ->
  PyStr.split sep (a +:+ String sep b) = a :: PyStr.split sep b.
Proof. intros H. by rewrite split_app_sep, split_without_sep. Qed.

Lemma last_split_after_sep (a b : string) :
  last (PyStr.split sep (a +:+ String sep b)) = last (PyStr.split sep b).
Proof.
  rewrite split_app_sep, last_app. pose proof (split_nonempty b) as Hb.
  destruct (last (PyStr.split sep b)) as [x|] eqn:E; [done|].
  by apply last_None in E.
Qed.

End Split.

Lemma string_app_assoc (a b c : string) : (a +:+ b) +:+ c = a +:+ (b +:+ c).
Proof. induction a as [|x a IH]; cbn; [done|]. by rewrite IH. Qed.

Lemma occurs_app (ch : ascii) (a b : string) :
  occurs ch (a +:+ b) = occurs ch a || occurs ch b.
Proof. induction a as [|x a IH]; cbn; [done|]. by rewrite IH, orb_assoc. Qed.

Lemma split_join_lines (lines : list string) :
  lines <> [] ->
  Forall (fun l => occurs newline l = false) lines ->
  PyStr.split newline (PyStr.join (String newline "") lines) = lines.
Proof.
  induction lines as [|l rest IH]; [done|]. intros _ Hall.
  apply Forall_cons in Hall as [Hl Hrest].
  destruct rest as [|l' rest'].
  - cbn. by apply split_without_sep.
  - change (PyStr.join (String newline "") (l :: l' :: rest'))
      with (l +:+ String newline (PyStr.join (String newline "") (l' :: rest'))).
    rewrite split_at_sep by done. by rewrite IH.
Qed.

(** The three readings that [_get_latest_tag] makes of a line. *)
Section Lines.
Variable ref : string * string.
Hypothesis Hplain : plain_ref ref = true.

Lemma plain_ref_facts :
  occurs tab ref.1 = false /\ occurs newline ref.1 = false /\
  occurs tab ref.2 = false /\ occurs newline ref.2 = false /\ occurs slash ref.2 = false.
Proof.
  unfold plain_ref in Hplain.
  repeat (apply andb_prop in Hplain as [Hplain ?]).
  repeat split; by apply negb_true_iff.
Qed.

Lemma line_without_newline : occurs newline (ls_remote_line ref) = false.
Proof.
  destruct plain_ref_facts as (_ & H1 & _ & H2 & _).
  unfold ls_remote_line. rewrite occurs_app, H1. cbn.
  rewrite H2. reflexivity.
Qed.

Lemma line_last_segment :
  last (PyStr.split slash (ls_remote_line ref)) = Some ref.2.
Proof.
  destruct plain_ref_facts as (_ & _ & _ & _ & H).
  unfold ls_remote_line.
  change (ref.1 +:+ String tab ("refs/tags/" +:+ ref.2))
    with (ref.1 +:+ String tab ("refs" +:+ String slash ("tags" +:+ String slash ref.2))).
  replace (ref.1 +:+ String tab ("refs" +:+ String slash ("tags" +:+ String slash ref.2)))
    with ((ref.1 +:+ String tab "refs") +:+ String slash ("tags" +:+ String slash ref.2)).
  - rewrite !last_split_after_sep, split_without_sep by done. reflexivity.
  - by rewrite string_app_assoc.
Qed.

Lemma line_remote_key :
  remote_key (ls_remote_line ref) = Ok (Version.LooseVersion_init ref.2).
Proof. unfold remote_key, PyStr.item_last. by rewrite line_last_segment. Qed.

Lemma line_ref_name :
  (ref' ← PyStr.item (PyStr.split tab (ls_remote_line ref)) 1;
   name ← PyStr.item_last (PyStr.split slash ref');
   Ok (Some name)) = Ok (Some ref.2).
Proof.
  destruct plain_ref_facts as (H1 & _ & H2 & _ & H3).
  unfold ls_remote_line. rewrite split_at_sep by done.
  rewrite split_without_sep by (rewrite occurs_app, H2; reflexivity).
  cbn -[PyStr.split String.append]. unfold PyStr.item_last.
  change ("refs/tags/" +:+ ref.2)
    with ("refs" +:+ String slash ("tags" +:+ String slash ref.2)).
  rewrite !last_split_after_sep, split_without_sep by done. reflexivity.
Qed.

End Lines.

(** ** The order of versions *)

Section Lex.
Context {T : Type}.
Variable cmp : T -> T -> comparison.
Hypothesis cmp_eq : forall x y, cmp x y = Eq <-> x = y.
Hypothesis cmp_opp : forall x y, cmp y x = CompOpp (cmp x y).
Hypothesis cmp_trans : forall x y z, cmp x y = Lt -> cmp y z = Lt -> cmp x z = Lt.

Lemma lex_compare_eq (a b : list T) : lex_compare cmp a b = Eq <-> a = b.
Proof.
  revert b. induction a as [|x a IH]; intros [|y b]; cbn; try done.
  destruct (cmp x y) eqn:E.
  - apply cmp_eq in E as ->. rewrite IH. split; [by intros -> | by intros [= ->]].
  - split; [done|]. intros [= -> _]. assert (cmp y y = Eq) by by apply cmp_eq. congruence.
  - split; [done|]. intros [= -> _]. assert (cmp y y = Eq) by by apply cmp_eq. congruence.
Qed.

Lemma lex_compare_opp (a b : list T) : lex_compare cmp b a = CompOpp (lex_compare cmp a b).
Proof.
  revert b. induction a as [|x a IH]; intros [|y b]; cbn; try done.
  rewrite (cmp_opp x y). destruct (cmp x y); cbn; auto.
Qed.

Lemma lex_compare_trans (a b d : list T) :
  lex_compare cmp a b = Lt -> lex_compare cmp b d = Lt -> lex_compare cmp a d = Lt.
Proof.
  revert b d. induction a as [|x a IH]; intros [|y b] [|z d]; cbn; try done.
  destruct (cmp x y) eqn:Exy, (cmp y z) eqn:Eyz; try done.
  - apply cmp_eq in Exy as ->. rewrite Eyz. apply IH.
  - apply cmp_eq in Exy as ->. by rewrite Eyz.
  - apply cmp_eq in Eyz as ->. by rewrite Exy.
  - by rewrite (cmp_trans x y z).
Qed.

End Lex.

Lemma ascii_compare_trans (x y z : ascii) :
  Ascii.compare x y = Lt -> Ascii.compare y z = Lt -> Ascii.compare x z = Lt.
Proof.
  unfold Ascii.compare. rewrite !N.compare_lt_iff. apply N.lt_trans.
Qed.

Lemma ascii_compare_refl (x : ascii) : Ascii.compare x x = Eq.
Proof. unfold Ascii.compare. apply N.compare_refl. Qed.

Lemma string_compare_trans (s t u : string) :
  Stdlib.Strings.String.compare s t = Lt ->
  Stdlib.Strings.String.compare t u = Lt ->
  Stdlib.Strings.String.compare s u = Lt.
Proof.
  revert t u. induction s as [|x s IH]; intros [|y t] [|z u]; cbn; try done.
  destruct (Ascii.compare x y) eqn:Exy, (Ascii.compare y z) eqn:Eyz; try done.
  - apply Ascii.compare_eq_iff in Exy as ->. rewrite Eyz. apply IH.
  - apply Ascii.compare_eq_iff in Exy as ->. by rewrite Eyz.
  - apply Ascii.compare_eq_iff in Eyz as ->. by rewrite Exy.
  - by rewrite (ascii_compare_trans x y z).
Qed.

Lemma string_compare_refl (s : string) : Stdlib.Strings.String.compare s s = Eq.
Proof. induction s as [|x s IH]; cbn; [done|]. by rewrite ascii_compare_refl. Qed.

Lemma component_compare_eq (x y : Version.component) :
  total_compare_component x y = Eq <-> x = y.
Proof.
  destruct x as [m|s], y as [n|t]; unfold total_compare_component; try done.
  - rewrite N.compare_eq_iff. split; [by intros -> | by intros [= ->]].
  - split.
    + intros H. by apply Stdlib.Strings.String.compare_eq_iff in H as ->.
    + intros [= ->]. apply string_compare_refl.
Qed.

Lemma component_compare_opp (x y : Version.component) :
  total_compare_component y x = CompOpp (total_compare_component x y).
Proof.
  destruct x as [m|s], y as [n|t]; unfold total_compare_component; try done.
  - apply N.compare_antisym.
  - apply Stdlib.Strings.String.compare_antisym.
Qed.

Lemma component_compare_trans (x y z : Version.component) :
  total_compare_component x y = Lt -> total_compare_component y z = Lt ->
  total_compare_component x z = Lt.
Proof.
  destruct x as [m|s], y as [n|t], z as [p|u]; unfold total_compare_component; try done.
  - rewrite !N.compare_lt_iff. apply N.lt_trans.
  - apply string_compare_trans.
Qed.

Lemma total_compare_eq (a b : list Version.component) : total_compare a b = Eq <-> a = b.
Proof. apply lex_compare_eq, component_compare_eq. Qed.

Lemma total_compare_opp (a b : list Version.component) :
  total_compare b a = CompOpp (total_compare a b).
Proof. apply lex_compare_opp, component_compare_opp. Qed.

Lemma total_compare_trans (a b d : list Version.component) :
  total_compare a b = Lt -> total_compare b d = Lt -> total_compare a d = Lt.
Proof.
  apply lex_compare_trans;
    [apply component_compare_eq | apply component_compare_trans].
Qed.

(** [total_lt] is a strict weak order. *)
Lemma total_lt_irrefl (v : Version.LooseVersion) : total_lt v v = false.
Proof.
  unfold total_lt. by rewrite (proj2 (total_compare_eq _ _) eq_refl).
Qed.

Lemma total_lt_asym (v w : Version.LooseVersion) : total_lt v w = true -> total_lt w v = false.
Proof.
  unfold total_lt. rewrite (total_compare_opp (components v) (components w)).
  by destruct (total_compare (components v) (components w)).
Qed.

Lemma total_lt_negtrans (u v w : Version.LooseVersion) :
  total_lt u v = false -> total_lt v w = false -> total_lt u w = false.
Proof.
  unfold total_lt. intros Huv Hvw.
  destruct (total_compare (components u) (components w)) eqn:Euw; try done.
  destruct (total_compare (components u) (components v)) eqn:Euv; try done.
  - apply total_compare_eq in Euv. rewrite Euv in Euw. by rewrite Euw in Hvw.
  - assert (Hvu : total_compare (components v) (components u) = Lt)
      by (by rewrite total_compare_opp, Euv).
    by rewrite (total_compare_trans _ _ _ Hvu Euw) in Hvw.
Qed.

(** Where Python's comparison answers, it answers as the total order. *)
Lemma list_lt_total (a b : list Version.component) (r : bool) :
  Version.list_lt a b = Ok r -> r = is_lt (total_compare a b).
Proof.
  revert b. induction a as [|x a IH]; intros [|y b]; cbn; try (by intros [= <-]).
  destruct (decide (x = y)) as [->|Hne].
  - rewrite (proj2 (component_compare_eq y y) eq_refl). apply IH.
  - destruct x as [m|s], y as [n|t]; unfold Version.component_lt, total_compare_component;
      try done; intros [= <-].
    + destruct (N.compare m n) eqn:E.
      * apply N.compare_eq_iff in E. congruence.
      * apply N.compare_lt_iff in E. by apply N.ltb_lt.
      * apply N.compare_gt_iff in E. apply N.ltb_ge. by apply N.lt_le_incl.
    + unfold PyStr.lt. destruct (Stdlib.Strings.String.compare s t) eqn:E; try done.
      apply Stdlib.Strings.String.compare_eq_iff in E. congruence.
Qed.

Lemma lt_total (v w : Version.LooseVersion) (r : bool) :
  Version.__lt__ v w = Ok r -> r = total_lt v w.
Proof.
  unfold Version.__lt__, Version._cmp, total_lt, components.
  destruct (Version.version v) as [a|], (Version.version w) as [b|]; cbn; try done.
  destruct (decide (a = b)) as [->|Hne]; cbn.
  - intros [= <-]. by rewrite (proj2 (total_compare_eq b b) eq_refl).
  - destruct (Version.list_lt a b) as [l|] eqn:El; cbn; [|done].
    apply list_lt_total in El. destruct l; cbn.
    + by intros [= <-].
    + destruct (Version.list_gt a b) as [[]|]; cbn; try done. by intros [= <-].
Qed.

(** ** The head of a list sorted in reverse is a greatest element *)

Section SortedMax.
Context {A K : Type}.
Variable key : A -> result K.
Variable lt : K -> K -> result bool.
Variable ltb : K -> K -> bool.
Hypothesis ltb_irrefl : forall x, ltb x x = false.
Hypothesis ltb_asym : forall x y, ltb x y = true -> ltb y x = false.
Hypothesis ltb_negtrans : forall x y z, ltb x y = false -> ltb y z = false -> ltb x z = false.

Lemma insert_desc_ok (x : K * A) (ys : list (K * A)) :
  (forall y, y ∈ ys -> lt x.1 y.1 = Ok (ltb x.1 y.1)) ->
  exists zs, insert_desc lt x ys = Ok zs /\ zs ≡ₚ x :: ys /\
    head zs = Some match ys with
                   | h :: _ => if ltb x.1 h.1 then h else x
                   | [] => x
                   end.
Proof.
  induction ys as [|y rest IH]; intros Hlt; cbn.
  - by exists [x].
  - rewrite (Hlt y) by apply list_elem_of_here. cbn.
    destruct (ltb x.1 y.1).
    + destruct IH as (r & -> & Hperm & _).
      { intros z Hz. apply Hlt. by apply list_elem_of_further. }
      cbn. exists (y :: r). split; [done|]. split; [|done].
      rewrite Hperm. apply Permutation_swap.
    + by exists (x :: y :: rest).
Qed.

Lemma sort_desc_ok (xs : list (K * A)) :
  (forall x y, x ∈ xs -> y ∈ xs -> lt x.1 y.1 = Ok (ltb x.1 y.1)) ->
  exists zs, sort_desc lt xs = Ok zs /\ zs ≡ₚ xs /\
    forall h, head zs = Some h -> forall y, y ∈ xs -> ltb h.1 y.1 = false.
Proof.
  induction xs as [|x rest IH]; intros Hlt; cbn.
  - exists []. repeat split; try done.
  - destruct IH as (s & -> & Hperm & Hmax).
    { intros a b Ha Hb. apply Hlt; by apply list_elem_of_further. }
    cbn. destruct (insert_desc_ok x s) as (zs & -> & Hzs & Hhead).
    { intros y Hy. apply Hlt; [apply list_elem_of_here|].
      apply list_elem_of_further. by rewrite <- Hperm. }
    exists zs. split; [done|]. split; [by rewrite Hzs, Hperm|].
    intros h Hh y Hy. rewrite Hhead in Hh. injection Hh as <-.
    destruct s as [|h0 s'].
    + apply Permutation_nil_l in Hperm as <-.
      apply list_elem_of_singleton in Hy as ->. apply ltb_irrefl.
    + specialize (Hmax h0 eq_refl).
      apply elem_of_cons in Hy as [->|Hy]; destruct (ltb x.1 h0.1) eqn:E.
      * by apply ltb_asym.
      * apply ltb_irrefl.
      * by apply Hmax.
      * apply (ltb_negtrans _ h0.1); [done | by apply Hmax].
Qed.

Lemma decorate_ok (kf : A -> K) (xs : list A) :
  (forall x, x ∈ xs -> key x = Ok (kf x)) ->
  decorate key xs = Ok ((fun x => (kf x, x)) <$> xs).
Proof.
  induction xs as [|x rest IH]; intros Hkey; cbn; [done|].
  rewrite (Hkey x) by apply list_elem_of_here. cbn.
  rewrite IH; [done|]. intros y Hy. apply Hkey. by apply list_elem_of_further.
Qed.

Lemma sorted_reverse_ok (kf : A -> K) (xs : list A) :
  (forall x, x ∈ xs -> key x = Ok (kf x)) ->
  (forall x y, x ∈ xs -> y ∈ xs -> lt (kf x) (kf y) = Ok (ltb (kf x) (kf y))) ->
  exists ys, sorted_reverse key lt xs = Ok ys /\ ys ≡ₚ xs /\
    forall h, head ys = Some h -> forall y, y ∈ xs -> ltb (kf h) (kf y) = false.
Proof.
  intros Hkey Hlt. unfold sorted_reverse. rewrite (decorate_ok kf xs Hkey). cbn.
  destruct (sort_desc_ok ((fun x => (kf x, x)) <$> xs)) as (zs & -> & Hperm & Hmax).
  { intros a b Ha Hb. apply list_elem_of_fmap in Ha as (x & -> & Hx).
    apply list_elem_of_fmap in Hb as (y & -> & Hy). cbn. by apply Hlt. }
  cbn. exists (zs.*2). split; [done|]. split.
  - rewrite Hperm, <- list_fmap_compose. by rewrite list_fmap_id.
  - intros h Hh y Hy.
    destruct zs as [|[k a] zs']; [done|]. cbn in Hh. injection Hh as ->.
    assert (Hin : (k, h) ∈ (fun x => (kf x, x)) <$> xs)
      by (rewrite <- Hperm; apply list_elem_of_here).
    apply list_elem_of_fmap in Hin as (x & [= -> ->] & Hx).
    apply (Hmax (kf x, x) eq_refl (kf y, y)).
    apply list_elem_of_fmap. by exists y.
Qed.

End SortedMax.

(** ** The latest tag *)

Lemma comparable_spec (names : list string) :
  comparable names = true <->
  forall a b, a ∈ names -> b ∈ names -> is_ok (version_lt a b) = true.
Proof.
  unfold comparable. rewrite forallb_forall. split.
  - intros H a b Ha Hb. apply list_elem_of_In in Ha, Hb.
    specialize (H a Ha). rewrite forallb_forall in H. by apply H.
  - intros H a Ha. apply forallb_forall. intros b Hb.
    apply H; by apply list_elem_of_In.
Qed.

Lemma comparable_total_lt (names : list string) (a b : string) :
  comparable names = true -> a ∈ names -> b ∈ names ->
  version_lt a b =
    Ok (total_lt (Version.LooseVersion_init a) (Version.LooseVersion_init b)).
Proof.
  intros Hc Ha Hb. pose proof (proj1 (comparable_spec names) Hc a b Ha Hb) as Hok.
  unfold version_lt in *.
  destruct (Version.__lt__ _ _) as [r|] eqn:E; [|done].
  by apply lt_total in E as ->.
Qed.

Lemma remote_key_total (t : string) : remote_key t = Ok (line_key t).
Proof.
  unfold remote_key, line_key, PyStr.item_last.
  pose proof (split_nonempty slash t) as H.
  destruct (last (PyStr.split slash t)) eqn:E; [done|]. by apply last_None in E.
Qed.

Lemma line_key_of_ref (ref : string * string) :
  plain_ref ref = true -> line_key (ls_remote_line ref) = Version.LooseVersion_init ref.2.
Proof. intros H. unfold line_key. by rewrite line_last_segment. Qed.

Lemma latest_tag_of_listing (refs : list (string * string)) :
  refs <> [] ->
  forallb plain_ref refs = true ->
  comparable refs.*2 = true ->
  exists t, latest_tag_of (ls_remote_output refs) = Ok (Some t) /\ t ∈ refs.*2 /\
    forall u, u ∈ refs.*2 -> version_lt t u = Ok false.
Proof.
  intros Hne Hplain Hcmp.
  assert (Hp : forall ref, ref ∈ refs -> plain_ref ref = true).
  { intros ref Hin. rewrite forallb_forall in Hplain. by apply Hplain, list_elem_of_In. }
  unfold latest_tag_of, ls_remote_output.
  rewrite split_join_lines.
  2: { by destruct refs. }
  2: { apply Forall_fmap, Forall_forall. intros ref Hin. by apply line_without_newline, Hp. }
  destruct (sorted_reverse_ok remote_key Version.__lt__ total_lt
              total_lt_irrefl total_lt_asym total_lt_negtrans line_key
              (ls_remote_line <$> refs)) as (ys & -> & Hperm & Hmax).
  { intros x _. apply remote_key_total. }
  { intros x y Hx Hy.
    apply list_elem_of_fmap in Hx as (rx & -> & Hx).
    apply list_elem_of_fmap in Hy as (ry & -> & Hy).
    rewrite !line_key_of_ref by auto.
    apply (comparable_total_lt refs.*2); [done | | ]; apply list_elem_of_fmap; eauto. }
  cbn. destruct ys as [|t0 ys'].
  { apply Permutation_nil_l in Hperm. by destruct refs. }
  assert (Hin0 : t0 ∈ ls_remote_line <$> refs)
    by (rewrite <- Hperm; apply list_elem_of_here).
  apply list_elem_of_fmap in Hin0 as (r0 & -> & Hr0).
  rewrite (line_ref_name r0 (Hp r0 Hr0)).
  exists r0.2. split; [done|]. split.
  - apply list_elem_of_fmap. eauto.
  - intros u Hu. apply list_elem_of_fmap in Hu as (r & -> & Hr).
    rewrite (comparable_total_lt refs.*2) by (done || (apply list_elem_of_fmap; eauto)).
    f_equal. rewrite <- !line_key_of_ref by auto.
    apply (Hmax _ eq_refl). apply list_elem_of_fmap. eauto.
Qed.

Lemma local_tags_sorted (names : list string) :
  names <> [] ->
  comparable names = true ->
  exists t rest,
    sorted_reverse (fun t => Ok (Version.LooseVersion_init t)) Version.__lt__ names
      = Ok (t :: rest) /\
    t ∈ names /\ forall u, u ∈ names -> version_lt t u = Ok false.
Proof.
  intros Hne Hcmp.
  destruct (sorted_reverse_ok (fun t => Ok (Version.LooseVersion_init t)) Version.__lt__
              total_lt total_lt_irrefl total_lt_asym total_lt_negtrans
              Version.LooseVersion_init names) as (ys & -> & Hperm & Hmax).
  { done. }
  { intros x y Hx Hy. by apply (comparable_total_lt names). }
  destruct ys as [|t0 ys'].
  { apply Permutation_nil_l in Hperm. by destruct names. }
  exists t0, ys'. split; [done|].
  assert (Hin0 : t0 ∈ names) by (rewrite <- Hperm; apply list_elem_of_here).
  split; [done|]. intros u Hu.
  rewrite (comparable_total_lt names) by done. f_equal. by apply (Hmax _ eq_refl).
Qed.

(** X22.  When the listing of the remote has one line per tag
    (an object id, a tab and [refs/tags/<name>], names without a slash) and
    every two names can be compared as loose versions, [_get_latest_tag]
    answers a tag of the listing that no tag of the listing exceeds.  For
    the tags v1.2.0, v1.9.0 and v1.10.0, listed in any order, it answers
    v1.10.0.  On the local tags of a repository, [_checkout_version] with
    the latest-release policy checks out a tag that no local tag exceeds. *)
Theorem latest_tag_is_greatest :
  (forall (c : collaborators) (url : string) (refs : list (string * string)) (w : world),
     refs <> [] ->
     forallb plain_ref refs = true ->
     comparable refs.*2 = true ->
     ls_remote c url = Ok (ls_remote_output refs) ->
     exists t, (_get_latest_tag c url w).1 = Ok (Some t) /\ t ∈ refs.*2 /\
       forall u, u ∈ refs.*2 -> version_lt t u = Ok false) /\
  (forall refs : list (string * string),
     forallb plain_ref refs = true ->
     refs.*2 ≡ₚ three_tags ->
     latest_tag_of (ls_remote_output refs) = Ok (Some "v1.10.0")) /\
  (forall (c : collaborators) (repo : string) (w : world),
     repo_tags c repo <> [] ->
     comparable (repo_tags c repo) = true ->
     exists t, t ∈ repo_tags c repo /\
       (forall u, u ∈ repo_tags c repo -> version_lt t u = Ok false) /\
       called w (_checkout_version c repo "latest-release" w).2 =
         [EvTags repo; EvCheckout repo t]).
Proof.
  split; [|split].
  - intros c url refs w Hne Hplain Hcmp Hls.
    destruct (latest_tag_of_listing refs Hne Hplain Hcmp) as (t & Ht & Hin & Hmax).
    exists t. split; [|done].
    unfold _get_latest_tag. unfold_calls. munfold. cbn. by rewrite Hls.
  - intros refs Hplain Hperm.
    assert (Hcmp : comparable refs.*2 = true).
    { apply comparable_spec. intros a b Ha Hb. rewrite Hperm in Ha, Hb.
      apply (proj1 (comparable_spec three_tags)); [by vm_compute | done | done]. }
    assert (Hne : refs <> []).
    { intros ->. by apply Permutation_nil_l in Hperm. }
    destruct (latest_tag_of_listing refs Hne Hplain Hcmp) as (t & -> & Hin & Hmax).
    assert (Hmax' : forall u, u ∈ three_tags -> version_lt t u = Ok false).
    { intros u Hu. apply Hmax. by rewrite Hperm. }
    rewrite Hperm in Hin. unfold three_tags in Hin, Hmax'.
    repeat (apply elem_of_cons in Hin as [->|Hin]).
    + specialize (Hmax' "v1.10.0"). discriminate Hmax'. set_solver.
    + specialize (Hmax' "v1.10.0"). discriminate Hmax'. set_solver.
    + done.
    + by apply elem_of_nil in Hin.
  - intros c repo w Hne Hcmp.
    destruct (local_tags_sorted (repo_tags c repo) Hne Hcmp) as (t & rest & Hs & Hin & Hmax).
    exists t. split; [done|]. split; [done|].
    unfold _checkout_version. rewrite decide_False by done. rewrite decide_True by done.
    unfold_calls. munfold. cbn. rewrite Hs. cbn.
    destruct (git_checkout c repo t); cbn; called_is.
Qed.

Lemma latest_tag_is_greatest_witness :
  exists t,
    (_get_latest_tag (sample_remote (ls_remote_output sample_refs)) sample_url sample_fresh).1
      = Ok (Some t) /\
    t ∈ sample_refs.*2 /\
    forall u, u ∈ sample_refs.*2 -> version_lt t u = Ok false.
Proof.
  destruct latest_tag_is_greatest as [H _].
  apply (H (sample_remote (ls_remote_output sample_refs)) sample_url sample_refs sample_fresh).
  - discriminate.
  - reflexivity.
  - reflexivity.
  - reflexivity.
Defined.

(** C2.  Against a remote whose tags v1.2.0, v1.9.0 and v1.10.0 are
    annotated, [_get_latest_tag] answers [v1.10.0^{}]: it sorts the raw
    lines of the listing, and the line of the commit behind a tag compares
    greater than the line of the tag.  The answer is no tag of the remote,
    and it is the branch that an install of the latest release asks the
    clone for.  Two tags that put a number against a letter run, [1.0] and
    [v1.0], cannot be compared: the sort raises [TypeError] and no tag is
    selected. *)
Theorem latest_tag_of_annotated_tags :
  latest_tag_of (ls_remote_output annotated_refs) = Ok (Some "v1.10.0^{}") /\
  ("v1.10.0^{}" ∉ three_tags) /\
  (forall (c : collaborators) (url : string) (w : world),
     ls_remote c url = Ok (ls_remote_output annotated_refs) ->
     (_get_latest_tag c url w).1 = Ok (Some "v1.10.0^{}")) /\
  called sample_fresh
    (install (sample_remote (ls_remote_output annotated_refs)) sample_url
       "latest-release" true false sample_fresh).2 =
    [EvExists (install_path sample_fresh sample_url); EvLsRemote sample_url;
     EvClone sample_url (install_path sample_fresh sample_url) (Some "v1.10.0^{}");
     EvSave] /\
  latest_tag_of (ls_remote_output [("1a", "1.0"); ("2b", "v1.0")]) = Raise TypeError.
Proof.
  assert (H : latest_tag_of (ls_remote_output annotated_refs) = Ok (Some "v1.10.0^{}")).
  { vm_compute. reflexivity. }
  apply conj; [exact H|]. apply conj; [|apply conj; [|apply conj]].
  - unfold three_tags. intros Hin.
    repeat (apply elem_of_cons in Hin as [Hin|Hin]; [discriminate Hin|]).
    by apply elem_of_nil in Hin.
  - intros c url w Hls. unfold _get_latest_tag, Git_ls_remote. munfold.
    cbn [fst snd]. rewrite Hls, H. reflexivity.
  - vm_compute. reflexivity.
  - vm_compute. reflexivity.
Qed.

(** Numeric segments compare as numbers; a tag with a slash is cut to
    its last segment; the peeled entry of an annotated tag wins over the
    tag itself. *)
Example latest_tag_examples :
  version_lt "v1.9.0" "v1.10.0" = Ok true /\
  PyStr.lt "v1.10.0" "v1.9.0" = true /\
  latest_tag_of (ls_remote_output [("1a", "v1.10.0"); ("2b", "v1.2.0"); ("3c", "v1.9.0")])
    = Ok (Some "v1.10.0") /\
  latest_tag_of (ls_remote_output [("1a", "release/1.0")]) = Ok (Some "1.0") /\
  latest_tag_of (ls_remote_output [("1a", "v1.0"); ("2b", "v1.0^{}")]) = Ok (Some "v1.0^{}").
Proof. repeat split; reflexivity. Qed.

(** * Further properties of the code *)

(** ** Package names and workspaces *)

Lemma occurs_remove_all_from (ch : ascii) (old : string) (skip : nat) (s : string) :
  occurs ch (PyStr.remove_all_from old skip s) = true -> occurs ch s = true.
Proof.
  revert skip. induction s as [|a s IH]; intros skip; [done|].
  cbn [PyStr.remove_all_from]. destruct skip as [|k].
  - destruct (PyStr.startswith old (String a s)).
    + intros H. apply IH in H. cbn. by rewrite H, orb_true_r.
    + cbn. intros H. apply orb_true_iff in H as [H|H].
      * by rewrite H.
      * apply IH in H. by rewrite H, orb_true_r.
  - intros H. apply IH in H. cbn. by rewrite H, orb_true_r.
Qed.

Lemma last_split_without_sep (sep : ascii) (s x : string) :
  last (PyStr.split sep s) = Some x -> occurs sep x = false.
Proof.
  revert x. induction s as [|a s IH]; intros x; cbn.
  - by intros [= <-].
  - destruct (decide (a = sep)) as [->|Hne].
    + pose proof (split_nonempty sep s) as Hs.
      destruct (PyStr.split sep s) as [|h t] eqn:E; [done|]. apply IH.
    + pose proof (split_nonempty sep s) as Hs.
      destruct (PyStr.split sep s) as [|h [|h' t]] eqn:E; [done| |].
      * cbn. intros [= <-]. cbn. rewrite (IH h eq_refl).
        by rewrite bool_decide_eq_false_2.
      * intros H. apply IH. by rewrite <- H.
Qed.

Lemma startswith_slash (s : string) :
  PyStr.startswith "/" s = true -> occurs slash s = true.
Proof.
  destruct s as [|a s]; cbn; [done|].
  destruct (decide ("/"%char = a)) as [<-|]; [|done]. intros _.
  by rewrite bool_decide_eq_true_2.
Qed.

(** X1.  The derived name never holds a slash, so the workspace of a package
    is an entry of the package directory itself: [os.path.join] never
    takes the name for an absolute path. *)
Theorem extract_name_without_slash (url : string) (w : world) :
  occurs slash (_extract_name url) = false /\
  install_path w url =
    if bool_decide (package_dir w = "") || PyStr.endswith "/" (package_dir w)
    then package_dir w +:+ _extract_name url
    else package_dir w +:+ "/" +:+ _extract_name url.
Proof.
  assert (H : occurs slash (_extract_name url) = false).
  { unfold _extract_name, PyStr.remove_all.
    destruct (occurs slash (PyStr.remove_all_from _ _ _)) eqn:E; [|done].
    apply occurs_remove_all_from in E.
    pose proof (split_nonempty slash url) as Hne.
    destruct (last (PyStr.split slash url)) as [x|] eqn:El.
    - apply last_split_without_sep in El. cbn in E. congruence.
    - by apply last_None in El. }
  split; [done|]. unfold install_path, os_path_join.
  destruct (PyStr.startswith "/" (_extract_name url)) eqn:E; [|done].
  apply startswith_slash in E. congruence.
Qed.

(** X2.  A locator that ends in a slash derives the empty name. *)
Theorem extract_name_trailing_slash (prefix : string) :
  _extract_name (prefix +:+ "/") = "".
Proof.
  unfold _extract_name.
  change (prefix +:+ "/") with (prefix +:+ String slash "").
  by rewrite last_split_after_sep.
Qed.

Lemma remove_all_absent (old s : string) :
  has_sub old s = false -> PyStr.remove_all old s = s.
Proof.
  unfold PyStr.remove_all. induction s as [|a s IH]; [done|].
  cbn [has_sub PyStr.remove_all_from]. intros H.
  apply orb_false_elim in H as [H1 H2]. rewrite H1. by rewrite IH.
Qed.

Lemma remove_dot_git_suffix (seg : string) :
  has_sub ".git" seg = false -> PyStr.remove_all ".git" (seg +:+ ".git") = seg.
Proof.
  unfold PyStr.remove_all. induction seg as [|a seg IH]; [done|].
  intros H. cbn [has_sub] in H. apply orb_false_elim in H as [H1 H2].
  cbn [String.append PyStr.remove_all_from].
  assert (Hs : PyStr.startswith ".git" (String a (seg +:+ ".git")) = false).
  { destruct seg as [|b [|c' [|d seg']]]; cbn in *;
      repeat (case_decide; subst; try done). }
  by rewrite Hs, IH.
Qed.

(** X3.  Where the final path segment holds no [".git"] it is the name; where it
    is [seg ++ ".git"] and [seg] holds no [".git"], the name is [seg]. *)
Theorem extract_name_plain_segment (url seg : string) :
  last (PyStr.split slash url) = Some seg ->
  (has_sub ".git" seg = false -> _extract_name url = seg) /\
  (forall stem, seg = stem +:+ ".git" -> has_sub ".git" stem = false ->
     _extract_name url = stem).
Proof.
  intros Hl. unfold _extract_name. rewrite Hl. cbn [default]. split.
  - apply remove_all_absent.
  - intros stem -> Hs. by apply remove_dot_git_suffix.
Qed.

Lemma extract_name_plain_segment_witness :
  _extract_name "git@example.org:team/tool" = "tool" /\
  _extract_name sample_url = "foo".
Proof.
  destruct (extract_name_plain_segment "git@example.org:team/tool" "tool" eq_refl) as [H1 _].
  destruct (extract_name_plain_segment sample_url "foo.git" eq_refl) as [_ H2].
  split; [by apply H1 | by apply (H2 "foo")].
Defined.

(** ** The store across [install], [update] and [reinstall] *)

Lemma install_every_case (c : collaborators) (url source : string) (manual reinstall : bool)
    (w : world) :
  (install_path w url ∈ fs w /\ reinstall = false /\
   install c url source manual reinstall w =
     (Ok tt, mkWorld (package_dir w) (fs w) (metadata w) (metadata_file w)
               (console w ++ [MsgAlreadyInstalled (_extract_name url)])
               (trace w ++ [EvExists (install_path w url)]))) \/
  (exists e, aborted w e (install c url source manual reinstall w)) \/
  completed w (_extract_name url) (install_path w url)
    (mkRecord url (Some source) (Some manual)) (install c url source manual reinstall w).
Proof.
  destruct reinstall.
  - right. by apply install_cases.
  - destruct (decide (install_path w url ∈ fs w)) as [Hin|Hout].
    + left. split; [done|]. split; [done|]. by apply install_guarded.
    + right. by apply install_cases.
Qed.

Lemma reinstall_known (c : collaborators) (name : string) (manual : bool) (w : world)
    (r : package_record) :
  metadata w !! name = Some r ->
  reinstall c name manual w =
    install c (rec_url r) (default "main" (rec_source r))
            (manual || default false (rec_manual r)) true w.
Proof.
  intros Hr. unfold reinstall. munfold. cbn.
  rewrite Hr. cbn. unfold metadata_item. by rewrite Hr.
Qed.

Lemma reinstall_unknown (c : collaborators) (name : string) (manual : bool) (w : world) :
  metadata w !! name = None ->
  reinstall c name manual w = (Ok tt, with_console (console w ++ [MsgNotFound name]) w).
Proof. intros Hr. unfold reinstall. munfold. cbn. by rewrite Hr. Qed.

Lemma install_in_sync (c : collaborators) (url source : string) (manual reinstall : bool)
    (w : world) :
  metadata w = metadata_file w ->
  metadata (install c url source manual reinstall w).2 =
  metadata_file (install c url source manual reinstall w).2.
Proof.
  intros Hsync.
  destruct (install_every_case c url source manual reinstall w)
    as [(_ & _ & ->)|[[e Ha]|Hc]].
  - done.
  - destruct Ha as (_ & -> & -> & _). done.
  - destruct Hc as (_ & _ & _ & -> & _). done.
Qed.

Lemma install_success_saved (c : collaborators) (url source : string)
    (manual reinstall : bool) (w : world) (n : string) :
  last (printed w (install c url source manual reinstall w).2) = Some (MsgInstalled n) ->
  metadata_file (install c url source manual reinstall w).2 =
  metadata (install c url source manual reinstall w).2.
Proof.
  intros Hlast.
  destruct (install_every_case c url source manual reinstall w)
    as [(_ & _ & E)|[[e Ha]|Hc]].
  - rewrite E in Hlast. cbn in Hlast.
    rewrite (printed_app _ _ [MsgAlreadyInstalled (_extract_name url)]) in Hlast by done.
    discriminate Hlast.
  - destruct Ha as (_ & _ & _ & _ & d & Hd & Hp).
    destruct (install_caught e); destruct Hp as [_ Hp]; rewrite Hp in Hlast.
    + rewrite last_snoc in Hlast. discriminate Hlast.
    + by apply (last_progress d (MsgInstalled n)) in Hlast.
  - by destruct Hc as (_ & _ & _ & Hf & _).
Qed.

(** X4.  An [install] or [reinstall] that reports success has saved the
    whole store: afterwards the saved file equals the metadata in memory,
    whether or not they agreed before.  When they agree before a call,
    they still agree after [update], and after an [install] or [reinstall]
    that made no save. *)
Theorem store_agreement (c : collaborators) (w : world) :
  (forall url source manual reinstall n,
     last (printed w (install c url source manual reinstall w).2) = Some (MsgInstalled n) ->
     metadata_file (install c url source manual reinstall w).2 =
     metadata (install c url source manual reinstall w).2) /\
  (forall name manual n,
     last (printed w (reinstall c name manual w).2) = Some (MsgInstalled n) ->
     metadata_file (reinstall c name manual w).2 = metadata (reinstall c name manual w).2) /\
  (metadata w = metadata_file w ->
   (forall url source manual reinstall,
      EvSave ∉ called w (install c url source manual reinstall w).2 ->
      metadata (install c url source manual reinstall w).2 =
      metadata_file (install c url source manual reinstall w).2) /\
   (forall name manual,
      metadata (update c name manual w).2 = metadata_file (update c name manual w).2) /\
   (forall name manual,
      EvSave ∉ called w (reinstall c name manual w).2 ->
      metadata (reinstall c name manual w).2 = metadata_file (reinstall c name manual w).2)).
Proof.
  split; [|split].
  - intros url source manual reinstall n. apply install_success_saved.
  - intros name manual n. destruct (metadata w !! name) as [r|] eqn:Hr.
    + rewrite (reinstall_known c name manual w r Hr). apply install_success_saved.
    + rewrite (reinstall_unknown c name manual w Hr). intros Hlast.
      rewrite (printed_app _ _ [MsgNotFound name]) in Hlast by done. discriminate Hlast.
  - intros Hsync. split; [|split].
    + intros url source manual reinstall _. by apply install_in_sync.
    + intros name manual.
      destruct (update_frame c w name manual w (frame_refl _ _ w)) as [_ -> -> _ _]. done.
    + intros name manual _. destruct (metadata w !! name) as [r|] eqn:Hr.
      * rewrite (reinstall_known c name manual w r Hr). by apply install_in_sync.
      * by rewrite (reinstall_unknown c name manual w Hr).
Qed.

Lemma store_agreement_witness :
  let w := mkWorld sample_home ∅
             {[ "bar" := mkRecord "https://example.org/bar.git" (Some "main") (Some true) ]}
             ∅ [] [] in
  let r := install (sample_remote "") sample_url "main" false false w in
  metadata_file r.2 = metadata r.2 /\ metadata_file w <> metadata w.
Proof.
  intros w r. split.
  - destruct (store_agreement (sample_remote "") w) as [H _].
    apply (H sample_url "main" false false "foo"). reflexivity.
  - intros H. apply (f_equal (fun m => m !! "bar")) in H. discriminate H.
Defined.

(** X5.  [install] leaves the record of every other package as it is. *)
Theorem install_keeps_other_records (c : collaborators) (url source : string)
    (manual reinstall : bool) (w : world) (other : string) :
  other <> _extract_name url ->
  metadata (install c url source manual reinstall w).2 !! other = metadata w !! other.
Proof.
  intros Hne.
  destruct (install_every_case c url source manual reinstall w)
    as [(_ & _ & ->)|[[e Ha]|Hc]].
  - done.
  - destruct Ha as (_ & -> & _). done.
  - destruct Hc as (_ & _ & -> & _). by rewrite lookup_insert_ne.
Qed.

Lemma install_keeps_other_records_witness :
  metadata (install (sample_remote "") "https://example.org/bar.git" "main" false false
              (sample_installed true)).2 !! "foo" =
  metadata (sample_installed true) !! "foo".
Proof.
  apply install_keeps_other_records. discriminate.
Defined.

(** X6.  [install] never raises an exception of a class its handler names,
    and a call that raises has printed no verdict, only progress lines; a
    call that returns ends its output with one of its three verdicts. *)
Theorem install_raises_only_uncaught (c : collaborators) (url source : string)
    (manual reinstall : bool) (w : world) :
  let r := install c url source manual reinstall w in
  (forall e, r.1 = Raise e ->
     install_caught e = false /\ Forall is_progress (printed w r.2)) /\
  (r.1 = Ok tt ->
     last (printed w r.2) = Some (MsgAlreadyInstalled (_extract_name url)) \/
     last (printed w r.2) = Some (MsgInstalled (_extract_name url)) \/
     exists e, install_caught e = true /\ last (printed w r.2) = Some (MsgInstallError e)).
Proof.
  intros r. subst r.
  destruct (install_every_case c url source manual reinstall w)
    as [(_ & _ & Heq)|[[e Ha]|Hc]].
  - rewrite Heq. cbn. split; [done|]. intros _. left.
    rewrite (printed_app _ _ [MsgAlreadyInstalled (_extract_name url)]) by done. done.
  - destruct Ha as (_ & _ & _ & _ & d & Hd & Ha).
    destruct (install_caught e) eqn:Hc; destruct Ha as [Hr Hp]; rewrite Hr.
    + split; [done|]. intros _. right. right. exists e. split; [done|].
      rewrite Hp. apply last_snoc.
    + split; [|done]. intros e' [= <-]. by rewrite Hp.
  - destruct Hc as (Hr & _ & _ & _ & _ & d & _ & Hp). rewrite Hr.
    split; [done|]. intros _. right. left. rewrite Hp. apply last_snoc.
Qed.

(** X7.  Two locators that derive the same name: once the first is installed,
    an install of the second without [reinstall] answers "already installed"
    and the record keeps the first locator. *)
Theorem install_name_collision (c c' : collaborators) (url url' source source' : string)
    (manual manual' : bool) (w : world) :
  let name := _extract_name url in
  let first := install c url source manual false w in
  let second := install c' url' source' manual' false first.2 in
  _extract_name url' = name ->
  last (printed w first.2) = Some (MsgInstalled name) ->
  second.1 = Ok tt /\
  printed first.2 second.2 = [MsgAlreadyInstalled name] /\
  metadata second.2 !! name = Some (mkRecord url (Some source) (Some manual)) /\
  metadata_file second.2 !! name = Some (mkRecord url (Some source) (Some manual)).
Proof.
  intros name first second Hname Hlast. subst second first.
  destruct (install_every_case c url source manual false w)
    as [(_ & _ & Heq)|[[e Ha]|Hc]].
  - exfalso. rewrite Heq in Hlast.
    rewrite (printed_app _ _ [MsgAlreadyInstalled name]) in Hlast by done.
    discriminate Hlast.
  - exfalso. destruct Ha as (_ & _ & _ & _ & d & Hd & Ha).
    destruct (install_caught e); destruct Ha as [_ Hp]; rewrite Hp in Hlast.
    + rewrite last_snoc in Hlast. discriminate Hlast.
    + by apply (last_progress d (MsgInstalled name)) in Hlast.
  - destruct Hc as (_ & Hdir & Hm & Hf & Hin & _).
    assert (Hpath : install_path (install c url source manual false w).2 url'
                    = install_path w url)
      by (unfold install_path; by rewrite Hdir, Hname).
    rewrite <- Hpath in Hin.
    rewrite (install_guarded c' url' source' manual' _ Hin). cbn.
    rewrite Hname, Hf, Hm. repeat split; try done.
    + by apply printed_app.
    + apply lookup_insert_eq.
    + apply lookup_insert_eq.
Qed.

Lemma install_name_collision_witness :
  let first := install (sample_remote "") sample_url "main" false false sample_fresh in
  let second :=
    install (sample_remote "") "https://elsewhere.example/other/foo" "main" true false first.2 in
  second.1 = Ok tt /\
  printed first.2 second.2 = [MsgAlreadyInstalled "foo"] /\
  metadata second.2 !! "foo" = Some (mkRecord sample_url (Some "main") (Some false)) /\
  metadata_file second.2 !! "foo" = Some (mkRecord sample_url (Some "main") (Some false)).
Proof.
  apply (install_name_collision (sample_remote "") (sample_remote "") sample_url
           "https://elsewhere.example/other/foo" "main" "main" false true sample_fresh);
    reflexivity.
Defined.

(** ** Which calls a method makes *)

Section Logs.
Variable Pe : event -> Prop.
Variable w0 : world.

Lemma logs_refl : logs Pe w0 w0.
Proof. exists []. by rewrite app_nil_r. Qed.

Lemma logs_emit (e : event) : Pe e -> inv (logs Pe w0) (emit e).
Proof.
  intros He. apply inv_modify. intros w (d & Ht & Hd).
  exists (d ++ [e]). cbn. rewrite Ht, <- app_assoc. split; [done|].
  apply Forall_app; auto.
Qed.

Lemma logs_modify (f : world -> world) :
  (forall w, trace (f w) = trace w) -> inv (logs Pe w0) (modify f).
Proof.
  intros Hf. apply inv_modify. intros w (d & Ht & Hd). exists d. by rewrite Hf.
Qed.

Lemma logs_called (w : world) : logs Pe w0 w -> Forall Pe (called w0 w).
Proof. intros (d & Ht & Hd). by rewrite (called_app _ _ d). Qed.

End Logs.

Ltac log_steps side :=
  repeat first
    [ apply inv_bind
    | apply inv_try_except
    | apply inv_ret
    | apply inv_lift
    | apply inv_gets
    | apply inv_metadata_item
    | apply logs_emit; side
    | apply logs_modify; intros; reflexivity
    | match goal with |- forall _, _ => intro end
    | case_match ].

Lemma install_manual_logs (c : collaborators) (w0 : world) (url source : string)
    (reinstall : bool) :
  inv (logs not_run w0) (install c url source true reinstall).
Proof.
  unfold install, acquire, _checkout_version. cbn [negb]. unfold_calls.
  log_steps ltac:(by intros ?).
Qed.

(** X8.  An install with [manual=True] runs no build or install command. *)
Theorem manual_install_runs_no_command (c : collaborators) (url source : string)
    (reinstall : bool) (w : world) :
  Forall not_run (called w (install c url source true reinstall w).2).
Proof. apply logs_called, install_manual_logs, logs_refl. Qed.

Lemma install_tags_logs (c : collaborators) (w0 : world) (url source : string)
    (manual reinstall : bool) :
  inv (logs not_tags w0) (install c url source manual reinstall).
Proof.
  unfold install, acquire, _checkout_version, _build_package. unfold_calls.
  log_steps ltac:(first [by intros ? | done]).
Qed.

Lemma update_tags_logs (c : collaborators) (w0 : world) (name : string) (manual : bool) :
  inv (logs not_tags w0) (update c name manual).
Proof.
  unfold update, _build_package. unfold_calls.
  log_steps ltac:(by intros ?).
Qed.

(** X9.  [install], [update] and [reinstall] never read the local tags of a
    repository: the latest-release branch of [_checkout_version] is out of
    their reach. *)
Theorem methods_never_read_local_tags (c : collaborators) (w : world) :
  (forall url source manual reinstall,
     Forall not_tags (called w (install c url source manual reinstall w).2)) /\
  (forall name manual, Forall not_tags (called w (update c name manual w).2)) /\
  (forall name manual, Forall not_tags (called w (reinstall c name manual w).2)).
Proof.
  split; [|split].
  - intros. apply logs_called, install_tags_logs, logs_refl.
  - intros. apply logs_called, update_tags_logs, logs_refl.
  - intros name manual. destruct (metadata w !! name) as [r|] eqn:Hr.
    + rewrite (reinstall_known c name manual w r Hr).
      apply logs_called, install_tags_logs, logs_refl.
    + rewrite (reinstall_unknown c name manual w Hr).
      rewrite (called_app _ _ []) by (by rewrite app_nil_r). constructor.
Qed.

Lemma update_destructive_logs (c : collaborators) (w0 : world) (name : string) (manual : bool) :
  inv (logs not_destructive w0) (update c name manual).
Proof.
  unfold update, _build_package. unfold_calls.
  log_steps ltac:(done).
Qed.

(** X10.  [update] makes no call that removes a tree, clones a repository
    or saves the metadata, on any path and whatever the collaborators
    answer. *)
Theorem update_makes_no_destructive_call (c : collaborators) (name : string)
    (manual : bool) (w : world) :
  Forall not_destructive (called w (update c name manual w).2).
Proof. apply logs_called, update_destructive_logs, logs_refl. Qed.

(** X11.  [reinstall] can set [manual] but never clears it: for a record with
    [manual] set, no build command runs, whatever flag the caller passes,
    and the record under the name still has [manual] set afterwards. *)
Theorem reinstall_manual_is_sticky (c : collaborators) (name : string) (manual : bool)
    (w : world) (r : package_record) :
  metadata w !! name = Some r ->
  rec_manual r = Some true ->
  let after := (reinstall c name manual w).2 in
  Forall not_run (called w after) /\
  forall r', metadata after !! name = Some r' -> rec_manual r' = Some true.
Proof.
  intros Hr Hm after. subst after.
  rewrite (reinstall_known c name manual w r Hr), Hm. cbn [default].
  rewrite orb_true_r. split.
  - apply logs_called, install_manual_logs, logs_refl.
  - intros r' Hr'.
    destruct (install_every_case c (rec_url r) (default "main" (rec_source r)) true true w)
      as [(_ & Hf & _)|[[e Ha]|Hc]]; [done| |].
    + destruct Ha as (_ & Hmeta & _). rewrite Hmeta, Hr in Hr'. by simplify_eq.
    + destruct Hc as (_ & _ & Hmeta & _). rewrite Hmeta in Hr'.
      destruct (decide (_extract_name (rec_url r) = name)) as [Heq|Hne].
      * rewrite Heq, lookup_insert_eq in Hr'. by simplify_eq.
      * rewrite lookup_insert_ne, Hr in Hr' by done. by simplify_eq.
Qed.

Lemma reinstall_manual_is_sticky_witness :
  let after := (reinstall (sample_remote "") "foo" false (sample_installed true)).2 in
  Forall not_run (called (sample_installed true) after) /\
  forall r', metadata after !! "foo" = Some r' -> rec_manual r' = Some true.
Proof.
  apply (reinstall_manual_is_sticky (sample_remote "") "foo" false (sample_installed true)
           (mkRecord sample_url (Some "main") (Some true))); reflexivity.
Defined.

(** ** The build step: what it swallows *)

#[local] Arguments printed : simpl never.
#[local] Arguments called : simpl never.

Ltac called_all :=
  erewrite called_app by (cbn; rewrite <- ?app_assoc; reflexivity).

Ltac printed_all :=
  erewrite printed_app by (cbn; rewrite <- ?app_assoc; reflexivity).

(** X12.  [_build_package] never raises [CalledProcessError].  When it
    returns it has printed either the success line or "Build failed", and
    nothing else; an exception of another class raised by a build command
    propagates with nothing printed, that command being the last one
    run. *)
Theorem build_package_swallows_exit_status (c : collaborators) (path : string) (w : world) :
  let r := _build_package c path w in
  r.1 <> Raise CalledProcessError /\
  (r.1 = Ok tt -> printed w r.2 = [MsgBuildOk] \/ printed w r.2 = [MsgBuildFailed]) /\
  (forall e, r.1 = Raise e ->
     printed w r.2 = [] /\
     exists argv, last (called w r.2) = Some (EvRun argv) /\ subprocess_run c argv = Raise e).
Proof.
  intros r. subst r. unfold _build_package, is_CalledProcessError. unfold_calls. munfold. cbn.
  repeat (case_match; simplify_eq/=; try done);
    (split; [try done; intros [= ->]; by rewrite bool_decide_eq_true_2 in * |]);
    (split; [try done; intros _; first [by left; apply printed_app | by right; apply printed_app]|]);
    intros e' He'; simplify_eq;
    (split; [apply printed_app; by rewrite app_nil_r|]);
    eexists; (split; [called_all; reflexivity | done]).
Qed.

(** ** A reinstall whose clone fails *)

Lemma not_in_remove_tree (path : string) (f : gset string) : path ∉ remove_tree path f.
Proof.
  unfold remove_tree. intros H. apply elem_of_filter in H as [H _].
  unfold under in H. by rewrite bool_decide_eq_true_2 in H.
Qed.

Lemma acquire_without_clone (c : collaborators) (url path source : string) (w : world) :
  (forall b, is_ok (clone_from c url path b) = false) ->
  clone_residue c path = false ->
  fs (acquire c url path source w).2 = fs w /\
  is_ok (acquire c url path source w).1 = false.
Proof.
  intros Hcl Hres. unfold acquire, _checkout_version. unfold_calls. munfold. cbn.
  rewrite Hres.
  repeat (case_match; simplify_eq/=; try done);
    match goal with
    | H : clone_from _ _ _ ?b = Ok _ |- _ =>
        specialize (Hcl b); rewrite H in Hcl; discriminate Hcl
    end.
Qed.

(** X13.  A reinstall removes the old workspace before it clones: when the clone
    then fails and leaves nothing behind, the workspace is gone while
    metadata and saved file are what they were, the old record included. *)
Theorem failed_reinstall_leaves_no_workspace (c : collaborators) (url source : string)
    (manual : bool) (w : world) :
  let path := install_path w url in
  let r := install c url source manual true w in
  path ∈ fs w ->
  rmtree c path = Ok tt ->
  (forall b, is_ok (clone_from c url path b) = false) ->
  clone_residue c path = false ->
  (path ∉ fs r.2) /\ metadata r.2 = metadata w /\ metadata_file r.2 = metadata_file w.
Proof.
  intros path r Hin Hrm Hcl Hres. subst path r. split.
  - unfold install, install_path in *. unfold_calls. munfold. cbn.
    rewrite bool_decide_eq_true_2 by done. cbn.
    rewrite bool_decide_eq_true_2 by done. cbn. rewrite Hrm. cbn.
    match goal with
    | |- context [acquire _ _ _ _ ?W1] =>
        destruct (acquire_without_clone c url
                    (os_path_join (package_dir w) (_extract_name url)) source W1 Hcl Hres)
          as [Hfs Hfail];
        destruct (acquire c url _ source W1) as [[[]|e] w2]
    end; cbn in *; [done|].
    destruct (install_caught e); cbn; rewrite Hfs; apply not_in_remove_tree.
  - pose proof (install_unguarded_outcome c url source manual true w
                  (fun _ => eq_refl) (fun _ _ => Hrm)) as H.
    destruct (acquire_without_clone c url (install_path w url) source w Hcl Hres)
      as [_ Hfail].
    destruct (acquire c url (install_path w url) source w).1 as [[]|e]; [done|].
    destruct H as (_ & Hm & Hf & _). done.
Qed.

Lemma failed_reinstall_leaves_no_workspace_witness :
  let w := sample_installed false in
  let r := install sample_offline sample_url "main" false true w in
  (install_path w sample_url ∉ fs r.2) /\
  metadata r.2 = metadata w /\ metadata_file r.2 = metadata_file w.
Proof.
  apply (failed_reinstall_leaves_no_workspace sample_offline sample_url "main" false
           (sample_installed false)).
  - by vm_compute.
  - reflexivity.
  - intros b. reflexivity.
  - reflexivity.
Defined.

(** ** Update: edge cases and the calls made per policy *)

Ltac run_update :=
  unfold update, update_caught, metadata_item; unfold_calls; munfold; cbn.

(** X14.  [update] on a name without record prints "not found" and does nothing
    else.  On a recorded package whose workspace is missing, [Repo(path)]
    raises [NoSuchPathError], which [update] does not catch: the call
    raises after printing "Updating" and no pull or build is made. *)
Theorem update_without_record_or_workspace (c : collaborators) (name : string) (manual : bool)
    (w : world) :
  let path := os_path_join (package_dir w) name in
  let r := update c name manual w in
  (metadata w !! name = None ->
   r = (Ok tt, with_console (console w ++ [MsgNotFound name]) w)) /\
  (is_Some (metadata w !! name) -> path ∉ fs w ->
   r.1 = Raise NoSuchPathError /\ printed w r.2 = [MsgUpdating name] /\
   called w r.2 = [EvOpenRepo path] /\ fs r.2 = fs w).
Proof.
  intros path r. subst path r. split.
  - intros Hnone. run_update. by rewrite Hnone.
  - intros [rec Hrec] Hout. run_update. rewrite Hrec. cbn.
    rewrite bool_decide_eq_false_2 by done. cbn.
    repeat split; [by apply printed_app | by apply called_app].
Qed.

Lemma update_without_record_or_workspace_witness :
  update (sample_remote "") "bar" false (sample_installed false) =
    (Ok tt, with_console [MsgNotFound "bar"] (sample_installed false)) /\
  (update (sample_remote "") "foo" false
     (with_fs ∅ (sample_installed false))).1 = Raise NoSuchPathError.
Proof.
  destruct (update_without_record_or_workspace (sample_remote "") "bar" false
              (sample_installed false)) as [H1 _].
  destruct (update_without_record_or_workspace (sample_remote "") "foo" false
              (with_fs ∅ (sample_installed false))) as [_ H2].
  split.
  - apply H1. reflexivity.
  - apply H2; [by eexists | apply not_elem_of_empty].
Defined.

(** X15.  When the pull of an [update] raises [GitCommandError], the call
    returns normally with "Update error" as its last line, and no build
    is made: the pull is the last call. *)
Theorem update_reports_pull_error (c : collaborators) (name : string) (manual : bool)
    (w : world) (rec : package_record) :
  let path := os_path_join (package_dir w) name in
  let r := update c name manual w in
  metadata w !! name = Some rec ->
  default "main" (rec_source rec) <> "latest-release" ->
  path ∈ fs w ->
  open_repo c path = Ok tt ->
  origin_pull c path = Raise GitCommandError ->
  r.1 = Ok tt /\
  printed w r.2 = [MsgUpdating name; MsgUpdateError GitCommandError] /\
  called w r.2 = [EvOpenRepo path; EvPull path].
Proof.
  intros path r Hrec Hsrc Hin Hopen Hpull. subst path r. run_update.
  rewrite Hrec. cbn. rewrite bool_decide_eq_true_2 by done. cbn.
  rewrite Hopen. cbn. rewrite Hrec. cbn. rewrite decide_False by done. cbn.
  rewrite Hpull. cbn. rewrite bool_decide_eq_true_2 by done. cbn.
  repeat split; [printed_all; reflexivity | called_all; reflexivity].
Qed.

Lemma update_reports_pull_error_witness :
  let w := sample_installed false in
  let r := update sample_offline "foo" false w in
  r.1 = Ok tt /\
  printed w r.2 = [MsgUpdating "foo"; MsgUpdateError GitCommandError] /\
  called w r.2 = [EvOpenRepo (os_path_join sample_home "foo");
                  EvPull (os_path_join sample_home "foo")].
Proof.
  apply (update_reports_pull_error sample_offline "foo" false (sample_installed false)
           (mkRecord sample_url (Some "main") (Some false))).
  - reflexivity.
  - discriminate.
  - by vm_compute.
  - reflexivity.
  - reflexivity.
Defined.

(** X16.  An [update] of a package that tracks the latest release, against a
    remote without tags, raises [IndexError] as [install] does: nothing is
    fetched, checked out or built. *)
Theorem update_latest_release_without_tags (c : collaborators) (name : string)
    (manual : bool) (w : world) (rec : package_record) :
  let path := os_path_join (package_dir w) name in
  let r := update c name manual w in
  metadata w !! name = Some rec ->
  rec_source rec = Some "latest-release" ->
  path ∈ fs w ->
  open_repo c path = Ok tt ->
  ls_remote c (rec_url rec) = Ok "" ->
  r.1 = Raise IndexError /\
  printed w r.2 = [MsgUpdating name] /\
  called w r.2 = [EvOpenRepo path; EvLsRemote (rec_url rec)] /\
  fs r.2 = fs w.
Proof.
  intros path r Hrec Hsrc Hin Hopen Hls. subst path r. run_update.
  rewrite Hrec. cbn. rewrite bool_decide_eq_true_2 by done. cbn.
  rewrite Hopen. cbn. rewrite Hrec, Hsrc. cbn. rewrite decide_True by done. cbn.
  rewrite Hrec. cbn. rewrite Hls. cbn.
  repeat split; [printed_all; reflexivity | called_all; reflexivity].
Qed.

Lemma update_latest_release_without_tags_witness :
  let w := mkWorld sample_home {[ os_path_join sample_home "foo" ]}
             {[ "foo" := mkRecord sample_url (Some "latest-release") (Some false) ]}
             {[ "foo" := mkRecord sample_url (Some "latest-release") (Some false) ]} [] [] in
  (update (sample_remote "") "foo" false w).1 = Raise IndexError.
Proof.
  intros w.
  apply (update_latest_release_without_tags (sample_remote "") "foo" false w
           (mkRecord sample_url (Some "latest-release") (Some false))).
  - reflexivity.
  - reflexivity.
  - by vm_compute.
  - reflexivity.
  - reflexivity.
Defined.

Lemma update_unknown (c : collaborators) (name : string) (manual : bool) (w : world) :
  metadata w !! name = None ->
  update c name manual w = (Ok tt, with_console (console w ++ [MsgNotFound name]) w).
Proof. intros Hnone. run_update. by rewrite Hnone. Qed.

(** ** A checkout that fails after the clone *)

(** X17.  When the clone of a first install succeeds and the checkout of the
    requested ref then raises [GitCommandError], the call returns with
    "Installation error", writes no record and leaves the clone in place.
    From then on every [install] of that locator answers "already
    installed", while [update] of the name answers "not found". *)
Theorem failed_checkout_orphans_workspace (c : collaborators) (url source : string)
    (manual : bool) (w : world) (tree : list string) :
  let name := _extract_name url in
  let path := install_path w url in
  let r := install c url source manual false w in
  source <> "latest-release" ->
  path ∉ fs w ->
  clone_from c url path None = Ok tree ->
  git_checkout c path source = Raise GitCommandError ->
  r.1 = Ok tt /\
  printed w r.2 = [MsgInstalling name; MsgInstallError GitCommandError] /\
  metadata r.2 = metadata w /\
  (path ∈ fs r.2) /\
  (forall source' manual',
     printed r.2 (install c url source' manual' false r.2).2 = [MsgAlreadyInstalled name]) /\
  (metadata w !! name = None ->
   forall manual', printed r.2 (update c name manual' r.2).2 = [MsgNotFound name]).
Proof.
  intros name path r Hsrc Hout Hclone Hco.
  assert (H : r.1 = Ok tt /\
              printed w r.2 = [MsgInstalling name; MsgInstallError GitCommandError] /\
              metadata r.2 = metadata w /\ package_dir r.2 = package_dir w /\
              path ∈ fs r.2).
  { subst name path r. unfold install, install_path, acquire, _checkout_version in *.
    unfold_calls. munfold. cbn.
    rewrite bool_decide_eq_false_2 by done. cbn.
    rewrite decide_False by done. cbn. rewrite Hclone. cbn.
    destruct (decide (source = "main")) as [->|Hmain]; cbn;
      rewrite ?decide_False by done; cbn; rewrite Hco; cbn;
      change (install_caught GitCommandError) with true; cbn;
      (repeat split; [printed_all; reflexivity | apply elem_of_put_tree]). }
  destruct H as (Hok & Hpr & Hm & Hd & Hin).
  assert (Hpath : install_path r.2 url = path).
  { subst path. unfold install_path. by rewrite Hd. }
  repeat split; try done.
  - intros source' manual'. rewrite install_guarded by by rewrite Hpath.
    by apply printed_app.
  - intros Hnone manual'. rewrite update_unknown by by rewrite Hm.
    by apply printed_app.
Qed.

Lemma failed_checkout_orphans_workspace_witness :
  let w := sample_fresh in
  let r := install sample_no_ref sample_url "main" false false w in
  r.1 = Ok tt /\
  printed w r.2 = [MsgInstalling "foo"; MsgInstallError GitCommandError] /\
  metadata r.2 = metadata w /\
  (install_path w sample_url ∈ fs r.2) /\
  (forall source' manual',
     printed r.2 (install sample_no_ref sample_url source' manual' false r.2).2 =
       [MsgAlreadyInstalled "foo"]) /\
  (metadata w !! "foo" = None ->
   forall manual', printed r.2 (update sample_no_ref "foo" manual' r.2).2 = [MsgNotFound "foo"]).
Proof.
  apply (failed_checkout_orphans_workspace sample_no_ref sample_url "main" false
           sample_fresh ["Makefile"]).
  - discriminate.
  - apply not_elem_of_empty.
  - reflexivity.
  - reflexivity.
Defined.

(** ** [update] after [install] *)

Lemma build_logs (Pe : event -> Prop) (c : collaborators) (w0 : world) (path : string) :
  (forall p, Pe (EvExists p)) -> (forall argv, Pe (EvRun argv)) ->
  inv (logs Pe w0) (_build_package c path).
Proof.
  intros Hex Hrun. unfold _build_package. unfold_calls.
  log_steps ltac:(auto).
Qed.

Lemma build_extends (Pe : event -> Prop) (c : collaborators) (path : string) (w : world) :
  (forall p, Pe (EvExists p)) -> (forall argv, Pe (EvRun argv)) ->
  exists dm de,
    console (_build_package c path w).2 = console w ++ dm /\
    trace (_build_package c path w).2 = trace w ++ de /\ Forall Pe de.
Proof.
  intros Hex Hrun.
  destruct (build_frame c w path w (frame_refl _ _ w)) as [_ _ _ (dm & Hc & _) _].
  destruct (build_logs Pe c w path Hex Hrun w (logs_refl Pe w)) as (de & Ht & Hde).
  by exists dm, de.
Qed.

(** Replaces the world that a build step returned by what is known of it:
    it extends console and trace. *)
Ltac build_known Pe :=
  repeat match goal with
         | H : _build_package ?c ?p ?W = (_, _) |- _ =>
             let dm := fresh "dm" in
             let de := fresh "de" in
             let Hc := fresh "Hc" in
             let Ht := fresh "Ht" in
             let Hde := fresh "Hde" in
             destruct (build_extends Pe c p W) as (dm & de & Hc & Ht & Hde);
             [by intros ? | by intros ? |];
             rewrite H in Hc, Ht; cbn in Hc, Ht; clear H
         end.

Lemma update_known_calls (c : collaborators) (name : string) (manual : bool) (w : world)
    (rec : package_record) :
  let path := os_path_join (package_dir w) name in
  let r := update c name manual w in
  metadata w !! name = Some rec ->
  path ∈ fs w ->
  head (printed w r.2) = Some (MsgUpdating name) /\
  head (called w r.2) = Some (EvOpenRepo path) /\
  (open_repo c path = Ok tt ->
   called w r.2 !! 1%nat =
     Some (if decide (default "main" (rec_source rec) = "latest-release")
           then EvLsRemote (rec_url rec) else EvPull path)).
Proof.
  intros path r Hrec Hin. subst path r.
  unfold update, update_caught, metadata_item. unfold_calls. munfold. cbn.
  rewrite Hrec. cbn. rewrite ?Hrec. cbn.
  rewrite bool_decide_eq_true_2 by done. cbn.
  repeat (case_match; simplify_eq/=; try done);
    build_known (fun _ : event => True);
    unfold printed, called; cbn; rewrite ?Hc, ?Ht;
    rewrite <- ?app_assoc, ?drop_app_length;
    (split; [done|]); (split; [done|]); try done; by intros _.
Qed.

(** X18.  A package that [install] reported as installed can be updated: the
    next [update] of its name finds the record and the workspace, opens
    the repository at the path of the install, and follows the locator and
    the source that the install recorded - the remote tags of that locator
    are listed for the latest-release policy, a pull is made otherwise. *)
Theorem update_after_install (c : collaborators) (url source : string)
    (manual manual' : bool) (w : world) :
  let name := _extract_name url in
  let path := install_path w url in
  let w1 := (install c url source manual false w).2 in
  let r := update c name manual' w1 in
  last (printed w w1) = Some (MsgInstalled name) ->
  head (printed w1 r.2) = Some (MsgUpdating name) /\
  head (called w1 r.2) = Some (EvOpenRepo path) /\
  (open_repo c path = Ok tt ->
   called w1 r.2 !! 1%nat =
     Some (if decide (source = "latest-release") then EvLsRemote url else EvPull path)).
Proof.
  intros name path w1 r Hlast. subst name path w1 r.
  destruct (install_every_case c url source manual false w)
    as [(_ & _ & E)|[[e Ha]|Hc]].
  - rewrite E in Hlast. cbn in Hlast. erewrite printed_app in Hlast by reflexivity.
    cbn in Hlast. simplify_eq.
  - destruct Ha as (_ & _ & _ & _ & d & Hd & Hp).
    destruct (install_caught e).
    + destruct Hp as [_ Hp]. rewrite Hp, last_snoc in Hlast. simplify_eq.
    + destruct Hp as [_ Hp]. rewrite Hp in Hlast.
      apply last_Some in Hlast as [d' ->].
      rewrite Forall_app, Forall_singleton in Hd. by destruct Hd as [_ Hd].
  - destruct Hc as (_ & Hdir & Hm & _ & Hin & _).
    pose proof (update_known_calls c (_extract_name url) manual'
                  (install c url source manual false w).2
                  (mkRecord url (Some source) (Some manual))) as H.
    cbn zeta in H. rewrite Hdir in H. apply H.
    + rewrite Hm. apply lookup_insert_eq.
    + done.
Qed.

Lemma update_after_install_witness :
  let w1 := (install (sample_remote "") sample_url "main" true false sample_fresh).2 in
  let r := update (sample_remote "") "foo" false w1 in
  head (printed w1 r.2) = Some (MsgUpdating "foo") /\
  head (called w1 r.2) = Some (EvOpenRepo (install_path sample_fresh sample_url)) /\
  (Ok tt = Ok tt :> result unit ->
   called w1 r.2 !! 1%nat = Some (EvPull (install_path sample_fresh sample_url))).
Proof.
  apply (update_after_install (sample_remote "") sample_url "main" true false sample_fresh).
  reflexivity.
Defined.

(** ** The latest tag of a one-line listing *)

(** X19.  When the remote lists a single tag, [_get_latest_tag] answers the part
    of its name after the last slash: a tag named [release/1.0] is
    answered as [1.0], which is not the name of a tag. *)
Theorem latest_tag_of_single_line (sha name : string) :
  occurs tab sha = false -> occurs newline sha = false ->
  occurs tab name = false -> occurs newline name = false ->
  latest_tag_of (ls_remote_output [(sha, name)]) =
    Ok (Some (default "" (last (PyStr.split slash name)))).
Proof.
  intros Hts Hns Htn Hnn.
  assert (Hline : occurs newline (ls_remote_line (sha, name)) = false).
  { unfold ls_remote_line. cbn -[String.append]. rewrite occurs_app, Hns. cbn. by rewrite Hnn. }
  unfold latest_tag_of, ls_remote_output.
  rewrite split_join_lines by (try done; by apply Forall_singleton).
  unfold sorted_reverse. cbn [fmap list_fmap decorate]. 
  cbn -[PyStr.split ls_remote_line remote_key Version.__lt__].
  rewrite remote_key_total. cbn -[PyStr.split ls_remote_line].
  unfold ls_remote_line. cbn [fst snd].
  rewrite split_at_sep by done.
  rewrite split_without_sep by (rewrite occurs_app, Htn; reflexivity).
  cbn -[PyStr.split String.append]. unfold PyStr.item_last.
  change ("refs/tags/" +:+ name)
    with ("refs" +:+ String slash ("tags" +:+ String slash name)).
  rewrite !last_split_after_sep.
  pose proof (split_nonempty slash name) as Hne.
  destruct (last (PyStr.split slash name)) eqn:E; [done|]. by apply last_None in E.
Qed.

Lemma latest_tag_of_single_line_witness :
  latest_tag_of (ls_remote_output [("1a", "release/1.0")]) = Ok (Some "1.0").
Proof.
  apply (latest_tag_of_single_line "1a" "release/1.0"); reflexivity.
Defined.

(** ** The calls of [update] by policy *)

(** X20.  [update] moves the working tree by the recorded policy alone.  Under
    the latest-release policy it never pulls.  Under every other policy,
    a pinned version included, it never lists remote tags, fetches tags or
    checks out a ref: what it does to the working tree is a pull. *)
Theorem update_calls_by_policy (c : collaborators) (name : string) (manual : bool)
    (w : world) (rec : package_record) :
  let r := update c name manual w in
  metadata w !! name = Some rec ->
  (default "main" (rec_source rec) = "latest-release" -> Forall not_pull (called w r.2)) /\
  (default "main" (rec_source rec) <> "latest-release" ->
   Forall not_ref_event (called w r.2)).
Proof.
  intros r Hrec. subst r. split; intros Hsrc.
  - unfold update, update_caught, metadata_item. unfold_calls. munfold. cbn.
    rewrite Hrec. cbn. rewrite ?Hrec. cbn. rewrite ?decide_True by done.
    repeat (case_match; simplify_eq/=; try done);
      build_known not_pull;
      unfold called; cbn; rewrite ?Ht; rewrite <- ?app_assoc, ?drop_app_length;
      repeat (apply Forall_cons; split; [by intros ?|]); done.
  - unfold update, update_caught, metadata_item. unfold_calls. munfold. cbn.
    rewrite Hrec. cbn. rewrite ?Hrec. cbn. rewrite ?decide_False by done.
    repeat (case_match; simplify_eq/=; try done);
      build_known not_ref_event;
      unfold called; cbn; rewrite ?Ht; rewrite <- ?app_assoc, ?drop_app_length;
      repeat (apply Forall_cons; split; [done|]); done.
Qed.

Lemma update_calls_by_policy_witness :
  let w := sample_installed false in
  Forall not_ref_event (called w (update (sample_remote "") "foo" false w).2).
Proof.
  intros w.
  apply (update_calls_by_policy (sample_remote "") "foo" false (sample_installed false)
           (mkRecord sample_url (Some "main") (Some false))); [reflexivity | discriminate].
Defined.

(** ** [_checkout_version] at its edges *)

(** X21.  With the latest-release policy and a repository without local
    tags, [_checkout_version] prints the warning "No releases found, using
    main branch" and makes no checkout: the working tree stays as it was.
    With any other spec it prints nothing and makes one checkout, of the
    spec as given, whose failure it passes on. *)
Theorem checkout_version_edges (c : collaborators) (repo source_spec : string) (w : world) :
  let r := _checkout_version c repo source_spec w in
  (source_spec = "latest-release" -> repo_tags c repo = [] ->
   r.1 = Ok tt /\ printed w r.2 = [MsgNoReleases] /\ called w r.2 = [EvTags repo] /\
   fs r.2 = fs w) /\
  (source_spec <> "latest-release" ->
   printed w r.2 = [] /\ called w r.2 = [EvCheckout repo source_spec] /\
   r.1 = (git_checkout c repo source_spec ≫= fun _ => Ok tt)).
Proof.
  intros r. subst r. split.
  - intros -> Htags. unfold _checkout_version. unfold_calls. munfold. cbn.
    rewrite Htags. cbn.
    repeat split; [by apply printed_app | by apply called_app].
  - intros Hsrc. unfold _checkout_version. unfold_calls. munfold.
    destruct (decide (source_spec = "main")) as [->|Hmain]; cbn;
      rewrite ?decide_False by done; cbn;
      destruct (git_checkout c repo _) as [tree|e]; cbn;
      (repeat split; [apply printed_app; by rewrite app_nil_r | by apply called_app]).
Qed.
